(** * TLO mTLS proxy: a shallow embedding of [src/app/server.js]

    The proxy accepts an authenticated JSON request, builds a SOAP
    envelope, calls the upstream service with retries, and classifies the
    XML answer.  This file embeds the request pipeline of [server.js] and
    proves or refutes the properties claimed of it.

    Conventions of the embedding.
    - A JavaScript string is the list of its UTF-16 code units ([jstr]).
    - JavaScript numbers are kept abstract behind the interface [JsNum]:
      the handler only tests them for truthiness, converts them with
      [String]/[Number] and serialises them.
    - A conversion that throws a TypeError returns [None]; where the
      source has the conversion inside its [try] the loop catches it, and
      where it has it outside the handler ends by throwing.
    - The XML parser of the [xml2js] package, the clock and the upstream
      service are collaborators of the handler and are parameters of it. *)

From Stdlib Require Import List NArith Bool Arith Lia.
From Stdlib Require Import ZArith.
From Stdlib Require String Ascii DecimalString.
Import String.StringSyntax.
Import ListNotations.

Set Warnings "-register-all".
Open Scope string_scope.
Open Scope list_scope.

(* ================================================================== *)
(** * JavaScript strings *)

Module Js.

Definition char := N.
Definition jstr := list char.

(** A literal of the source text, as code units. *)
Definition lit (s : String.string) : jstr :=
  map Ascii.N_of_ascii (String.list_ascii_of_string s).

Definition dquote : char := 34%N.   (* the double quote *)
Definition squote : char := 39%N.   (* the apostrophe *)
Definition LF : char := 10%N.
Definition CR : char := 13%N.

Fixpoint jstr_eqb (a b : jstr) : bool :=
  match a, b with
  | [], [] => true
  | x :: a', y :: b' => N.eqb x y && jstr_eqb a' b'
  | _, _ => false
  end.

(** [s.replace(/c/g, by)] for a one-character pattern. *)
Definition replace_all (c : char) (by_ : jstr) (s : jstr) : jstr :=
  flat_map (fun x => if N.eqb x c then by_ else [x]) s.

(** [s.slice(0, n)] *)
Definition slice0 (n : nat) (s : jstr) : jstr := firstn n s.

(** [hay.includes(needle)] *)
Fixpoint prefix_of (p s : jstr) : bool :=
  match p, s with
  | [], _ => true
  | x :: p', y :: s' => N.eqb x y && prefix_of p' s'
  | _ :: _, [] => false
  end.

Fixpoint includes (hay needle : jstr) : bool :=
  prefix_of needle hay ||
  match hay with
  | [] => false
  | _ :: hay' => includes hay' needle
  end.

(** [parts.join(sep)] *)
Fixpoint join (sep : jstr) (parts : list jstr) : jstr :=
  match parts with
  | [] => []
  | [p] => p
  | p :: rest => p ++ sep ++ join sep rest
  end.

End Js.
Import Js.

(* ================================================================== *)
(** * JavaScript values *)

(** The numbers of the runtime (IEEE doubles) with the operations the
    handler applies to them. *)
Class JsNum (num : Type) := {
  NaN : num;
  num_of_nat : nat -> num;
  num_truthy : num -> bool;          (* false on +0, -0 and NaN *)
  num_finite : num -> bool;          (* false on NaN and the infinities *)
  num_to_string : num -> jstr;       (* Number::toString *)
  string_to_num : jstr -> num;       (* StringToNumber *)
  NaN_not_finite : num_finite NaN = false;
  NaN_falsy : num_truthy NaN = false
}.

Section Values.
Context {num : Type} {JN : JsNum num}.

Inductive jsval :=
| JUndefined
| JNull
| JBool (b : bool)
| JNum (n : num)
| JStr (s : jstr)
| JArr (items : list jsval)
| JObj (fields : list (jstr * jsval))      (* a plain object, as {} *)
| JBare (fields : list (jstr * jsval)).    (* an object without prototype,
                                              as Object.create(null) *)

(** ToBoolean *)
Definition truthy (v : jsval) : bool :=
  match v with
  | JUndefined | JNull => false
  | JBool b => b
  | JNum n => num_truthy n
  | JStr s => match s with [] => false | _ => true end
  | JArr _ | JObj _ | JBare _ => true
  end.

(** [a || b] *)
Definition js_or (a b : jsval) : jsval := if truthy a then a else b.

(** Property read [v.k] / [v[k]] for the property names the handler uses
    (none of them is inherited from a prototype, so only own properties
    of plain objects answer). *)
Fixpoint lookup (k : jstr) (fields : list (jstr * jsval)) : jsval :=
  match fields with
  | [] => JUndefined
  | (k', v) :: rest => if jstr_eqb k k' then v else lookup k rest
  end.

Definition get (v : jsval) (k : jstr) : jsval :=
  match v with
  | JObj fields | JBare fields => lookup k fields
  | _ => JUndefined
  end.

(** Optional chaining [v?.[k]] *)
Definition get_opt (v : jsval) (k : jstr) : jsval :=
  match v with
  | JUndefined | JNull => JUndefined
  | _ => get v k
  end.

(** Whether an object has an own property [k]. *)
Fixpoint has_own (k : jstr) (fields : list (jstr * jsval)) : bool :=
  match fields with
  | [] => false
  | (k', _) :: rest => jstr_eqb k k' || has_own k rest
  end.

(** [String(v)]; [None] when the conversion throws a TypeError.

    The values at hand are data: what [JSON.parse] and the XML parser
    build holds no function.  An object is converted by its [toString]
    and [valueOf] methods: an own property of that name is not callable
    and hides the inherited method, and the inherited [valueOf] returns
    the object itself.  So the conversion of a plain object throws
    exactly when it has an own property [toString], and gives
    ["[object Object]"] otherwise; the conversion of an object without
    prototype, which inherits no method, always throws.  An array is
    converted by [join], which converts each element other than
    [undefined] and [null]. *)
Fixpoint ToString (v : jsval) : option jstr :=
  match v with
  | JUndefined => Some (lit "undefined")
  | JNull => Some (lit "null")
  | JBool true => Some (lit "true")
  | JBool false => Some (lit "false")
  | JNum n => Some (num_to_string n)
  | JStr s => Some s
  | JArr items =>
      option_map (join (lit ","))
        ((fix each (l : list jsval) : option (list jstr) :=
            match l with
            | [] => Some []
            | x :: r =>
                match match x with
                      | JUndefined | JNull => Some []
                      | _ => ToString x
                      end, each r with
                | Some p, Some ps => Some (p :: ps)
                | _, _ => None
                end
            end) items)
  | JObj fields =>
      if has_own (lit "toString") fields then None
      else Some (lit "[object Object]")
  | JBare _ => None
  end.

(** [Number(v)]; [None] when the conversion throws a TypeError.  Objects
    and arrays are first converted to a primitive, which is the string
    of [ToString] or the same TypeError. *)
Definition ToNumber (v : jsval) : option num :=
  match v with
  | JUndefined => Some NaN
  | JNull => Some (num_of_nat 0)
  | JBool true => Some (num_of_nat 1)
  | JBool false => Some (num_of_nat 0)
  | JNum n => Some n
  | JStr s => Some (string_to_num s)
  | JArr _ | JObj _ | JBare _ => option_map string_to_num (ToString v)
  end.

(** [v !== "0"] *)
Definition not_string_zero (v : jsval) : bool :=
  match v with
  | JStr s => negb (jstr_eqb s (lit "0"))
  | _ => true
  end.

End Values.
Arguments jsval : clear implicits.


(* ================================================================== *)
(** * A reference XML 1.0 parser

    The envelope is checked against a character-driven parser of XML 1.0
    documents: the [Char] production (with surrogate pairs), end-of-line
    normalisation, the XML declaration, start, end and empty-element tags
    with attributes, character data and the five predefined entity
    references.  Comments, CDATA sections, processing instructions,
    document type declarations and numeric character references are not
    supported and are refused. *)

Module Xml.
Local Open Scope N_scope.

Inductive node :=
| Elem (name : jstr) (attrs : list (jstr * jstr)) (children : list node)
| Text (s : jstr).

(** ** Characters *)

Definition between (lo hi c : char) : bool := (lo <=? c) && (c <=? hi).

(** [Char], for a code unit of the basic plane. *)
Definition bmp_char (c : char) : bool :=
  (c =? 9) || (c =? 10) || (c =? 13) || between 32 55295 c
  || between 57344 65533 c.

Definition high_surrogate (c : char) : bool := between 55296 56319 c.
Definition low_surrogate (c : char) : bool := between 56320 57343 c.

(** Every character of the document is a [Char]; [pending] tells that the
    previous unit was a high surrogate. *)
Fixpoint chars_ok (pending : bool) (s : jstr) : bool :=
  match s with
  | [] => negb pending
  | c :: r =>
      if pending then low_surrogate c && chars_ok false r
      else if bmp_char c then chars_ok false r
      else high_surrogate c && chars_ok true r
  end.

Definition xml_chars (s : jstr) : bool := chars_ok false s.

Definition is_space (c : char) : bool :=
  (c =? 32) || (c =? 9) || (c =? 10) || (c =? 13).

Definition name_start (c : char) : bool :=
  (c =? 58) || between 65 90 c || (c =? 95) || between 97 122 c
  || between 192 214 c || between 216 246 c || between 248 767 c
  || between 880 893 c || between 895 8191 c || between 8204 8205 c
  || between 8304 8591 c || between 11264 12271 c || between 12289 55295 c
  || between 63744 64975 c || between 65008 65533 c
  || between 55296 56191 c || low_surrogate c.

Definition name_char (c : char) : bool :=
  name_start c || (c =? 45) || (c =? 46) || between 48 57 c || (c =? 183)
  || between 768 879 c || between 8255 8256 c.

Definition valid_name (n : jstr) : bool :=
  match n with
  | [] => false
  | c :: r => name_start c && forallb name_char r
  end.

(** End-of-line handling (XML 1.0, 2.11): CR LF and a lone CR become LF. *)
Fixpoint normalize_eol (s : jstr) : jstr :=
  match s with
  | [] => []
  | c :: r =>
      if c =? CR then
        LF :: match r with
              | c' :: r' => if c' =? LF then normalize_eol r'
                            else normalize_eol r
              | [] => []
              end
      else c :: normalize_eol r
  end.

(** The predefined entities. *)
Definition entity (name : jstr) : option char :=
  if jstr_eqb name (lit "amp") then Some 38
  else if jstr_eqb name (lit "lt") then Some 60
  else if jstr_eqb name (lit "gt") then Some 62
  else if jstr_eqb name (lit "quot") then Some 34
  else if jstr_eqb name (lit "apos") then Some 39
  else None.

(** ** Parser state *)

Record frame := Frame {
  f_name : jstr;
  f_attrs : list (jstr * jstr);
  f_kids : list node            (* most recent first *)
}.

Inductive tag_kind := KOpen | KDecl.

Inductive mode :=
| MStart                                   (* nothing read yet *)
| MLtStart                                 (* '<' as first character *)
| MDeclName (n : jstr)                     (* after "<?" *)
| MDeclEnd (attrs : list (jstr * jstr))    (* after '?' closing the declaration *)
| MContent (text : jstr)                   (* character data, most recent first *)
| MEntity (text : jstr) (ent : jstr)
| MLt
| MOpenName (n : jstr)
| MAttrs (k : tag_kind) (name : jstr) (attrs : list (jstr * jstr))
| MAttrName (k : tag_kind) (name : jstr) (attrs : list (jstr * jstr)) (an : jstr)
| MAttrEq (k : tag_kind) (name : jstr) (attrs : list (jstr * jstr)) (an : jstr)
| MAttrQuote (k : tag_kind) (name : jstr) (attrs : list (jstr * jstr)) (an : jstr)
| MAttrValue (k : tag_kind) (name : jstr) (attrs : list (jstr * jstr)) (an : jstr)
             (q : char) (val : jstr)
| MAttrEntity (k : tag_kind) (name : jstr) (attrs : list (jstr * jstr)) (an : jstr)
              (q : char) (val : jstr) (ent : jstr)
| MAfterValue (k : tag_kind) (name : jstr) (attrs : list (jstr * jstr))
| MEmptySlash (name : jstr) (attrs : list (jstr * jstr))
| MLtSlash                                 (* after "</" *)
| MCloseName (n : jstr)
| MCloseSpace (name : jstr).

Record pstate := PState {
  p_mode : mode;
  p_stack : list frame;
  p_root : option node
}.

Definition init : pstate := PState MStart [] None.

(** A finished node goes to the innermost open element, or becomes the
    root; a second root is refused. *)
Definition add_node (n : node) (stack : list frame) (root : option node)
  : option (list frame * option node) :=
  match stack with
  | f :: fs => Some (Frame (f_name f) (f_attrs f) (n :: f_kids f) :: fs, root)
  | [] => match root with
          | None => Some ([], Some n)
          | Some _ => None
          end
  end.

Definition flush (text : jstr) (stack : list frame) : list frame :=
  match text, stack with
  | _ :: _, f :: fs =>
      Frame (f_name f) (f_attrs f) (Text (rev text) :: f_kids f) :: fs
  | _, _ => stack
  end.

Definition open_elem (name : jstr) (attrs : list (jstr * jstr))
  (stack : list frame) (root : option node) : option pstate :=
  match stack, root with
  | [], Some _ => None
  | _, _ => Some (PState (MContent []) (Frame name (rev attrs) [] :: stack) root)
  end.

Definition empty_elem (name : jstr) (attrs : list (jstr * jstr))
  (stack : list frame) (root : option node) : option pstate :=
  match add_node (Elem name (rev attrs) []) stack root with
  | Some (stack', root') => Some (PState (MContent []) stack' root')
  | None => None
  end.

Definition close_elem (name : jstr) (stack : list frame) (root : option node)
  : option pstate :=
  match stack with
  | f :: fs =>
      if jstr_eqb name (f_name f) then
        match add_node (Elem (f_name f) (f_attrs f) (rev (f_kids f))) fs root with
        | Some (stack', root') => Some (PState (MContent []) stack' root')
        | None => None
        end
      else None
  | [] => None
  end.

Definition has_attr (an : jstr) (attrs : list (jstr * jstr)) : bool :=
  existsb (fun kv => jstr_eqb an (fst kv)) attrs.

(** The XML declaration: version, then optionally encoding, then
    optionally standalone. *)
Definition version_num (v : jstr) : bool :=
  match v with
  | 49 :: 46 :: d :: ds => forallb (between 48 57) (d :: ds)
  | _ => false
  end.

Definition enc_name (v : jstr) : bool :=
  match v with
  | c :: r =>
      (between 65 90 c || between 97 122 c)
      && forallb (fun x => between 65 90 x || between 97 122 x
                           || between 48 57 x || (x =? 46) || (x =? 95)
                           || (x =? 45)) r
  | [] => false
  end.

Definition yes_no (v : jstr) : bool :=
  jstr_eqb v (lit "yes") || jstr_eqb v (lit "no").

Definition standalone_ok (rest : list (jstr * jstr)) : bool :=
  match rest with
  | [] => true
  | [(k, v)] => jstr_eqb k (lit "standalone") && yes_no v
  | _ => false
  end.

Definition decl_ok (attrs : list (jstr * jstr)) : bool :=
  match attrs with
  | (k, v) :: rest =>
      jstr_eqb k (lit "version") && version_num v &&
      match rest with
      | (k2, v2) :: rest2 =>
          if jstr_eqb k2 (lit "encoding") then enc_name v2 && standalone_ok rest2
          else standalone_ok rest
      | [] => true
      end
  | [] => false
  end.

(** ** One character *)

Definition end_tag_head (k : tag_kind) (name : jstr) (attrs : list (jstr * jstr))
  (stack : list frame) (root : option node) (c : char) : option pstate :=
  match k with
  | KOpen =>
      if c =? 62 then open_elem name attrs stack root
      else if c =? 47 then Some (PState (MEmptySlash name attrs) stack root)
      else None
  | KDecl =>
      if c =? 63 then Some (PState (MDeclEnd (rev attrs)) stack root)
      else None
  end.

Definition step (st : pstate) (c : char) : option pstate :=
  let stack := p_stack st in
  let root := p_root st in
  let go m := Some (PState m stack root) in
  match p_mode st with
  | MStart =>
      if c =? 60 then go MLtStart
      else if is_space c then go (MContent [])
      else None
  | MLtStart =>
      if c =? 63 then go (MDeclName [])
      else if c =? 47 then go MLtSlash
      else if name_start c then go (MOpenName [c])
      else None
  | MDeclName n =>
      if is_space c then
        if jstr_eqb (rev n) (lit "xml") then go (MAttrs KDecl [] []) else None
      else if name_char c then go (MDeclName (c :: n))
      else None
  | MDeclEnd attrs =>
      if (c =? 62) && decl_ok attrs then go (MContent []) else None
  | MContent text =>
      match stack with
      | [] =>
          if c =? 60 then go MLt
          else if is_space c then go (MContent [])
          else None
      | _ :: _ =>
          if c =? 60 then Some (PState MLt (flush text stack) root)
          else if c =? 38 then go (MEntity text [])
          else if (c =? 62) && prefix_of [93; 93] text then None
          else go (MContent (c :: text))
      end
  | MEntity text ent =>
      if c =? 59 then
        match entity (rev ent) with
        | Some x => go (MContent (x :: text))
        | None => None
        end
      else if name_char c then go (MEntity text (c :: ent))
      else None
  | MLt =>
      if c =? 47 then go MLtSlash
      else if name_start c then go (MOpenName [c])
      else None
  | MOpenName n =>
      if name_char c then go (MOpenName (c :: n))
      else if is_space c then go (MAttrs KOpen (rev n) [])
      else end_tag_head KOpen (rev n) [] stack root c
  | MAttrs k name attrs =>
      if is_space c then go (MAttrs k name attrs)
      else if name_start c then go (MAttrName k name attrs [c])
      else end_tag_head k name attrs stack root c
  | MAttrName k name attrs an =>
      if name_char c then go (MAttrName k name attrs (c :: an))
      else if c =? 61 then go (MAttrQuote k name attrs (rev an))
      else if is_space c then go (MAttrEq k name attrs (rev an))
      else None
  | MAttrEq k name attrs an =>
      if is_space c then go (MAttrEq k name attrs an)
      else if c =? 61 then go (MAttrQuote k name attrs an)
      else None
  | MAttrQuote k name attrs an =>
      if is_space c then go (MAttrQuote k name attrs an)
      else if (c =? 34) || (c =? 39) then go (MAttrValue k name attrs an c [])
      else None
  | MAttrValue k name attrs an q val =>
      if c =? q then
        if has_attr an attrs then None
        else go (MAfterValue k name ((an, rev val) :: attrs))
      else if c =? 60 then None
      else if c =? 38 then go (MAttrEntity k name attrs an q val [])
      else if is_space c then go (MAttrValue k name attrs an q (32 :: val))
      else go (MAttrValue k name attrs an q (c :: val))
  | MAttrEntity k name attrs an q val ent =>
      if c =? 59 then
        match entity (rev ent) with
        | Some x => go (MAttrValue k name attrs an q (x :: val))
        | None => None
        end
      else if name_char c then go (MAttrEntity k name attrs an q val (c :: ent))
      else None
  | MAfterValue k name attrs =>
      if is_space c then go (MAttrs k name attrs)
      else end_tag_head k name attrs stack root c
  | MEmptySlash name attrs =>
      if c =? 62 then empty_elem name attrs stack root else None
  | MLtSlash =>
      if name_start c then go (MCloseName [c]) else None
  | MCloseName n =>
      if name_char c then go (MCloseName (c :: n))
      else if is_space c then go (MCloseSpace (rev n))
      else if c =? 62 then close_elem (rev n) stack root
      else None
  | MCloseSpace name =>
      if is_space c then go (MCloseSpace name)
      else if c =? 62 then close_elem name stack root
      else None
  end.

Fixpoint run (st : pstate) (s : jstr) : option pstate :=
  match s with
  | [] => Some st
  | c :: r =>
      match step st c with
      | Some st' => run st' r
      | None => None
      end
  end.

(** The document is complete when the root element is closed and only
    white space followed it. *)
Definition finish (st : pstate) : option node :=
  match p_mode st, p_stack st, p_root st with
  | MContent _, [], Some r => Some r
  | _, _, _ => None
  end.

Definition parse_xml (doc : jstr) : option node :=
  if xml_chars doc then
    match run init (normalize_eol doc) with
    | Some st => finish st
    | None => None
    end
  else None.

Definition well_formed (doc : jstr) : Prop := exists t, parse_xml doc = Some t.

(** ** Reading a tree *)

Definition text_kids (s : jstr) : list node :=
  match s with
  | [] => []
  | _ :: _ => [Text s]
  end.

(** The character data directly inside an element. *)
Fixpoint text_of_kids (kids : list node) : jstr :=
  match kids with
  | [] => []
  | Text s :: r => s ++ text_of_kids r
  | Elem _ _ _ :: r => text_of_kids r
  end.

Definition text_content (n : node) : jstr :=
  match n with
  | Elem _ _ kids => text_of_kids kids
  | Text s => s
  end.

Fixpoint child (name : jstr) (kids : list node) : option node :=
  match kids with
  | [] => None
  | Elem n a k :: r => if jstr_eqb n name then Some (Elem n a k) else child name r
  | Text _ :: r => child name r
  end.

(** Follow element names down from a node. *)
Fixpoint descend (path : list jstr) (n : node) : option node :=
  match path with
  | [] => Some n
  | name :: rest =>
      match n with
      | Elem _ _ kids =>
          match child name kids with
          | Some c => descend rest c
          | None => None
          end
      | Text _ => None
      end
  end.

End Xml.

(* ================================================================== *)
(** * Configuration and envelope builder *)

(** The part of [process.env] that [CONFIG] reads; an unset variable is
    [undefined]. *)
Record ProcessEnv := {
  env_SHARED_SECRET : option jstr;
  env_TLO_USERNAME : option jstr;
  env_TLO_PASSWORD : option jstr
}.

Record Config := {
  SHARED_SECRET : option jstr;
  TLO_USERNAME : option jstr;
  TLO_PASSWORD : option jstr;
  TIMEOUT_MS : N;
  RETRIES : nat
}.

Definition CONFIG (env : ProcessEnv) : Config := {|
  SHARED_SECRET := env_SHARED_SECRET env;
  TLO_USERNAME := env_TLO_USERNAME env;
  TLO_PASSWORD := env_TLO_PASSWORD env;
  TIMEOUT_MS := 20000;
  RETRIES := 2
|}.

Section Envelope.
Context {num : Type} {JN : JsNum num}.

(** A value read from the environment, as a JavaScript value. *)
Definition of_env (v : option jstr) : jsval num :=
  match v with
  | Some s => JStr s
  | None => JUndefined
  end.

(** [xmlEscape]: [String(v)], then five global replacements, one after
    the other.  [None] when [String(v)] throws. *)
Definition xmlEscape (v : jsval num) : option jstr :=
  match ToString v with
  | Some s =>
      Some (replace_all squote (lit "&apos;")
             (replace_all dquote (lit "&quot;")
               (replace_all 62%N (lit "&gt;")
                 (replace_all 60%N (lit "&lt;")
                   (replace_all 38%N (lit "&amp;") s)))))
  | None => None
  end.

Definition quoted (s : String.string) : jstr := dquote :: lit s ++ [dquote].
Definition nl : jstr := [LF].

(** The template literal of [buildSoap], line by line, around the five
    interpolated texts. *)
Definition soap_template (username password firstName lastName ssn : jstr) : jstr :=
  lit "<?xml version=" ++ quoted "1.0" ++ lit " encoding=" ++ quoted "utf-8" ++ lit "?>" ++ nl ++
  lit "<soapenv:Envelope xmlns:soapenv=" ++ quoted "http://schemas.xmlsoap.org/soap/envelope/"
    ++ lit " xmlns:tlo=" ++ quoted "http://tlo.com/" ++ lit ">" ++ nl ++
  lit "  <soapenv:Header/>" ++ nl ++
  lit "  <soapenv:Body>" ++ nl ++
  lit "    <tlo:PersonSearch>" ++ nl ++
  lit "      <tlo:genericSearchInput>" ++ nl ++
  lit "        <tlo:Username>" ++ username ++ lit "</tlo:Username>" ++ nl ++
  lit "        <tlo:Password>" ++ password ++ lit "</tlo:Password>" ++ nl ++
  lit "        <tlo:DPPAPurpose>0</tlo:DPPAPurpose>" ++ nl ++
  lit "        <tlo:GLBPurpose>0</tlo:GLBPurpose>" ++ nl ++
  lit "        <tlo:NumberOfRecords>25</tlo:NumberOfRecords>" ++ nl ++
  lit "        <tlo:StartingRecord>1</tlo:StartingRecord>" ++ nl ++
  lit "        <tlo:Name>" ++ nl ++
  lit "          <tlo:FirstName>" ++ firstName ++ lit "</tlo:FirstName>" ++ nl ++
  lit "          <tlo:LastName>" ++ lastName ++ lit "</tlo:LastName>" ++ nl ++
  lit "        </tlo:Name>" ++ nl ++
  lit "        <tlo:SSN>" ++ ssn ++ lit "</tlo:SSN>" ++ nl ++
  lit "      </tlo:genericSearchInput>" ++ nl ++
  lit "    </tlo:PersonSearch>" ++ nl ++
  lit "  </soapenv:Body>" ++ nl ++
  lit "</soapenv:Envelope>".

(** [buildSoap]: the interpolations are evaluated in the order of the
    template; the first [xmlEscape] that throws ends the call. *)
Definition buildSoap (cfg : Config) (firstName lastName ssn : jsval num)
  : option jstr :=
  match xmlEscape (of_env (TLO_USERNAME cfg)) with
  | None => None
  | Some username =>
  match xmlEscape (of_env (TLO_PASSWORD cfg)) with
  | None => None
  | Some password =>
  match xmlEscape firstName with
  | None => None
  | Some first =>
  match xmlEscape lastName with
  | None => None
  | Some last =>
  match xmlEscape ssn with
  | None => None
  | Some number => Some (soap_template username password first last number)
  end end end end end.

End Envelope.

(* ================================================================== *)
(** * JSON.stringify, as [res.json] and [log] use it *)

Section Json.
Context {num : Type} {JN : JsNum num}.
Local Open Scope N_scope.

Definition hex_digit (n : N) : char := if n <? 10 then 48 + n else 87 + n.

Definition u_escape (c : char) : jstr :=
  [92; 117; hex_digit (c / 4096); hex_digit ((c / 256) mod 16);
   hex_digit ((c / 16) mod 16); hex_digit (c mod 16)].

(** QuoteJSONString, without the enclosing quotes. *)
Fixpoint quote_chars (s : jstr) : jstr :=
  match s with
  | [] => []
  | c :: r =>
      if c =? 34 then 92 :: 34 :: quote_chars r
      else if c =? 92 then 92 :: 92 :: quote_chars r
      else if c =? 8 then 92 :: 98 :: quote_chars r
      else if c =? 9 then 92 :: 116 :: quote_chars r
      else if c =? 10 then 92 :: 110 :: quote_chars r
      else if c =? 12 then 92 :: 102 :: quote_chars r
      else if c =? 13 then 92 :: 114 :: quote_chars r
      else if c <? 32 then u_escape c ++ quote_chars r
      else if Xml.high_surrogate c then
        match r with
        | l :: r' =>
            if Xml.low_surrogate l then c :: l :: quote_chars r'
            else u_escape c ++ quote_chars r
        | [] => u_escape c
        end
      else if Xml.low_surrogate c then u_escape c ++ quote_chars r
      else c :: quote_chars r
  end.

Definition quote (s : jstr) : jstr := dquote :: quote_chars s ++ [dquote].

(** [JSON.stringify(v)]; [None] is [undefined]: such a property is left
    out of an object and becomes [null] in an array. *)
Fixpoint stringify (v : jsval num) : option jstr :=
  match v with
  | JUndefined => None
  | JNull => Some (lit "null")
  | JBool true => Some (lit "true")
  | JBool false => Some (lit "false")
  | JNum n => Some (if num_finite n then num_to_string n else lit "null")
  | JStr s => Some (quote s)
  | JArr items =>
      Some (lit "[" ++
            join (lit ",")
              ((fix each (l : list (jsval num)) : list jstr :=
                  match l with
                  | [] => []
                  | x :: r =>
                      match stringify x with
                      | Some t => t
                      | None => lit "null"
                      end :: each r
                  end) items)
            ++ lit "]")
  | JObj fields | JBare fields =>
      Some (lit "{" ++
            join (lit ",")
              ((fix each (l : list (jstr * jsval num)) : list jstr :=
                  match l with
                  | [] => []
                  | (k, x) :: r =>
                      match stringify x with
                      | Some t => (quote k ++ lit ":" ++ t) :: each r
                      | None => each r
                      end
                  end) fields)
            ++ lit "}")
  end.

End Json.

(* ================================================================== *)
(** * Transport client: [callTlo] *)

Record JsError := { message : jstr }.

Record Exchange := { httpStatus : nat; raw : jstr }.

Inductive Promise (A : Type) :=
| Pending
| Resolved (a : A)
| Rejected (e : JsError).
Arguments Pending {A}.
Arguments Resolved {A} a.
Arguments Rejected {A} e.

(** What the runtime delivers to the request of one attempt.  Response
    chunks are given as the text they decode to. *)
Inductive ReqEvent :=
| EvResponse (statusCode : nat)     (* 'response': the callback of https.request *)
| EvData (chunk : jstr)             (* 'data' on the response *)
| EvEnd                             (* 'end' on the response *)
| EvError (err : JsError)           (* 'error' on the request *)
| EvTimeout.                        (* 'timeout' on the request *)

Record ReqState := {
  res : option (nat * list jstr);   (* statusCode and the chunks so far *)
  promise : Promise Exchange
}.

(** [resolve] and [reject] act on a pending promise only. *)
Definition settle (p : Promise Exchange) (st : ReqState) : ReqState :=
  match promise st with
  | Pending => {| res := res st; promise := p |}
  | _ => st
  end.

(** The listeners [callTlo] registers: the response callback with its
    'data' and 'end' listeners, and 'error' on the request.  No listener
    is registered for 'timeout'. *)
Definition on_event (st : ReqState) (ev : ReqEvent) : ReqState :=
  match ev with
  | EvResponse code => {| res := Some (code, []); promise := promise st |}
  | EvData d =>
      match res st with
      | Some (code, chunks) =>
          {| res := Some (code, chunks ++ [d]); promise := promise st |}
      | None => st
      end
  | EvEnd =>
      match res st with
      | Some (code, chunks) =>
          settle (Resolved {| httpStatus := code; raw := concat chunks |}) st
      | None => st
      end
  | EvError err => settle (Rejected err) st
  | EvTimeout => st
  end.

Definition callTlo_promise (events : list ReqEvent) : Promise Exchange :=
  promise (fold_left on_event events {| res := None; promise := Pending |}).

(* ================================================================== *)
(** * The request handler *)

(** What a request does to the outside, in order. *)
Inductive Effect (num : Type) :=
| ECall (soap : jstr)               (* one outbound attempt, with its body *)
| ELog (entry : jsval num).         (* the object handed to console.log *)
Arguments ECall {num} soap.
Arguments ELog {num} entry.

Record Response (num : Type) := { status : nat; body : jsval num }.
Arguments status {num} r.
Arguments body {num} r.
Arguments Build_Response {num} status body.

(** How the handler leaves a request. *)
Inductive Outcome (num : Type) :=
| Responded (r : Response num)
| Awaiting          (* suspended on a promise that never settles *)
| Unanswered        (* returned without sending a response *)
| Thrown            (* threw outside the [try]: the handler ends with
                       its promise rejected, having sent no response *)
| OutOfFuel.
Arguments Responded {num} r.
Arguments Awaiting {num}.
Arguments Unanswered {num}.
Arguments Thrown {num}.
Arguments OutOfFuel {num}.

Record Request (num : Type) := {
  x_shared_secret : option jstr;    (* req.header("x-shared-secret") *)
  req_body : jsval num              (* req.body, as express.json() left it *)
}.
Arguments x_shared_secret {num} r.
Arguments req_body {num} r.
Arguments Build_Request {num} x_shared_secret req_body.

(** The collaborators of one request: the upstream service, asked for
    the events of the k-th outbound call, and the clock. *)
Record Environment := {
  upstream : nat -> jstr -> list ReqEvent;
  now : nat -> jstr
}.

Definition opt_jstr_eqb (a b : option jstr) : bool :=
  match a, b with
  | Some x, Some y => jstr_eqb x y
  | None, None => true
  | _, _ => false
  end.

Section Handler.
Context {num : Type} {JN : JsNum num}.
Variable cfg : Config.
(** [parseStringPromise(raw, { explicitArray: false })] of xml2js: the
    parsed document, or the error it rejects with. *)
Variable parseStringPromise : jstr -> jsval num + JsError.
Variable env : Environment.

(** Computations that extend the trace of effects. *)
Definition M (A : Type) : Type := list (Effect num) -> A * list (Effect num).

Definition ret {A} (a : A) : M A := fun t => (a, t).

Definition bind {A B} (m : M A) (k : A -> M B) : M B :=
  fun t => let (a, t') := m t in k a t'.

Notation "x <- m ;; k" := (bind m (fun x => k))
  (at level 61, m at next level, right associativity).
Notation "m ;;; k" := (bind m (fun _ => k))
  (at level 61, right associativity).

Definition is_call (e : Effect num) : bool :=
  match e with ECall _ => true | ELog _ => false end.

Definition calls (t : list (Effect num)) : nat := length (filter is_call t).

Definition is_log (e : Effect num) : bool :=
  match e with ELog _ => true | ECall _ => false end.

Definition logged (t : list (Effect num)) : list (Effect num) := filter is_log t.

(** [callTlo(soapXml)], awaited. *)
Definition callTlo (soapXml : jstr) : M (Promise Exchange) :=
  fun t => (callTlo_promise (upstream env (calls t) soapXml), t ++ [ECall soapXml]).

(** [log(level, msg, extra)] *)
Definition log (level msg : jstr) (extra : list (jstr * jsval num)) : M unit :=
  fun t =>
    (tt, t ++ [ELog (JObj ((lit "ts", JStr (now env (length t)))
                           :: (lit "level", JStr level)
                           :: (lit "msg", JStr msg)
                           :: extra))]).

(** [res.status(code).json(obj)] *)
Definition json (code : nat) (obj : list (jstr * jsval num)) : Response num :=
  {| status := code; body := JObj obj |}.

Definition result_node (parsed : jsval num) : jsval num :=
  get_opt (get_opt (get_opt (get_opt parsed (lit "soap:Envelope"))
                      (lit "soap:Body"))
             (lit "PersonSearchResponse"))
    (lit "PersonSearchResult").

(** The body of the [try] block after both awaits: the response it
    sends, or [None] when [Number(result.NumberOfRecordsFound)] throws. *)
Definition classify (r : Exchange) (parsed : jsval num) : option (Response num) :=
  let result := result_node parsed in
  if negb (truthy result) then
    Some (json 502 [(lit "ok", JBool false);
                    (lit "error", JStr (lit "SOAP_PARSE_FAILED"));
                    (lit "rawStart", JStr (slice0 500 (raw r)))])
  else if truthy (get result (lit "ErrorCode"))
          && not_string_zero (get result (lit "ErrorCode")) then
    Some (json 200 [(lit "ok", JBool false);
                    (lit "tloError", JBool true);
                    (lit "errorCode", get result (lit "ErrorCode"));
                    (lit "errorMessage", get result (lit "ErrorMessage"))])
  else
    match ToNumber (get result (lit "NumberOfRecordsFound")) with
    | Some recordsFound =>
        Some (json 200 [(lit "ok", JBool true);
                        (lit "transactionId", get result (lit "TransactionId"));
                        (lit "recordsFound", JNum recordsFound);
                        (lit "data", result)])
    | None => None
    end.

(** The TypeError of a conversion to a primitive, with the message the
    runtime of Node.js gives it. *)
Definition cannot_convert : JsError :=
  {| message := lit "Cannot convert object to primitive value" |}.

Definition timeout_response : Response num :=
  json 504 [(lit "ok", JBool false); (lit "error", JStr (lit "TLO_TIMEOUT"))].

(** The [catch] block of attempt number [attempt]; [continue] is the
    rest of the loop. *)
Definition catch (attempt : nat) (err : JsError) (continue : M (Outcome num))
  : M (Outcome num) :=
  log (lit "warn") (lit "tlo_attempt_failed")
      [(lit "attempt", JNum (num_of_nat attempt));
       (lit "err", JStr (message err))] ;;;
  if RETRIES cfg <? attempt then ret (Responded timeout_response)
  else continue.

(** The [for] loop; [fuel] bounds the number of iterations. *)
Fixpoint attempts (fuel : nat) (soap : jstr) (attempt : nat) : M (Outcome num) :=
  match fuel with
  | O => ret OutOfFuel
  | S fuel' =>
      if attempt <=? RETRIES cfg + 1 then
        r <- callTlo soap ;;
        match r with
        | Pending => ret Awaiting
        | Rejected err => catch attempt err (attempts fuel' soap (attempt + 1))
        | Resolved x =>
            match parseStringPromise (raw x) with
            | inr err => catch attempt err (attempts fuel' soap (attempt + 1))
            | inl parsed =>
                match classify x parsed with
                | Some response => ret (Responded response)
                | None =>
                    catch attempt cannot_convert
                      (attempts fuel' soap (attempt + 1))
                end
            end
        end
      else ret Unanswered
  end.

(** [app.post("/tlo/person-search", ...)] *)
Definition handler (req : Request num) : M (Outcome num) :=
  if negb (opt_jstr_eqb (x_shared_secret req) (SHARED_SECRET cfg)) then
    ret (Responded (json 401 [(lit "ok", JBool false);
                              (lit "error", JStr (lit "UNAUTHORIZED"))]))
  else
    let body := js_or (req_body req) (JObj []) in
    let firstName := get body (lit "firstName") in
    let lastName := get body (lit "lastName") in
    let ssn := get body (lit "ssn") in
    if negb (truthy firstName) || negb (truthy lastName) || negb (truthy ssn) then
      ret (Responded (json 400 [(lit "ok", JBool false);
                                (lit "error", JStr (lit "INVALID_INPUT"))]))
    else
      match buildSoap cfg firstName lastName ssn with
      | None => ret Thrown              (* line 138 is outside the [try] *)
      | Some soap => attempts (RETRIES cfg + 1) soap 1
      end.

(** One request, from an empty trace. *)
Definition serve (req : Request num) : Outcome num * list (Effect num) :=
  handler req [].

End Handler.

(* ================================================================== *)
(** * Reference collaborators

    Instances of the parameters, to run the handler on the sample data:
    numbers restricted to the integers and NaN, and the conversion
    xml2js applies (with [explicitArray: false] and its other defaults)
    on top of the reference XML parser.  They stand for the runtime and
    the library on the samples only, and no theorem about the handler
    depends on them: decimal integers are the only strings read as
    numbers; the documents accepted are those of XML 1.0, with its
    end-of-line handling, and every rejected document gets the same
    error message; the nodes are plain objects, as the versions of
    xml2js up to 0.4 build them (later versions build objects without
    prototype). *)

Module Ref.

Inductive refnum := RNaN | RInt (z : Z).

Definition digits (n : N) : jstr :=
  lit (DecimalString.NilEmpty.string_of_uint (N.to_uint n)).

Definition refnum_to_string (n : refnum) : jstr :=
  match n with
  | RNaN => lit "NaN"
  | RInt z =>
      match z with
      | Zneg p => lit "-" ++ digits (Npos p)
      | _ => digits (Z.to_N z)
      end
  end.

Definition js_space (c : char) : bool :=
  (Xml.between 9 13 c || (c =? 32) || (c =? 160) || (c =? 5760)
   || Xml.between 8192 8202 c || (c =? 8232) || (c =? 8233) || (c =? 8239)
   || (c =? 8287) || (c =? 12288) || (c =? 65279))%N.

Fixpoint drop_space (s : jstr) : jstr :=
  match s with
  | c :: r => if js_space c then drop_space r else s
  | [] => []
  end.

Definition trim (s : jstr) : jstr := rev (drop_space (rev (drop_space s))).

Fixpoint read_digits (acc : N) (s : jstr) : option N :=
  match s with
  | [] => Some acc
  | c :: r =>
      if Xml.between 48%N 57%N c then read_digits (10 * acc + (c - 48))%N r
      else None
  end.

Definition unsigned (s : jstr) : option N :=
  match s with
  | [] => None
  | _ :: _ => read_digits 0%N s
  end.

(** Decimal integers, with surrounding white space; the empty string is 0. *)
Definition refnum_of_string (s : jstr) : refnum :=
  match trim s with
  | [] => RInt 0%Z
  | 45%N :: r => match unsigned r with
                 | Some n => RInt (- Z.of_N n)
                 | None => RNaN
                 end
  | 43%N :: r => match unsigned r with
                 | Some n => RInt (Z.of_N n)
                 | None => RNaN
                 end
  | t => match unsigned t with
         | Some n => RInt (Z.of_N n)
         | None => RNaN
         end
  end.

#[export] Instance RefNum : JsNum refnum := {|
  NaN := RNaN;
  num_of_nat := fun n => RInt (Z.of_nat n);
  num_truthy := fun n => match n with RInt z => negb (Z.eqb z 0%Z) | RNaN => false end;
  num_finite := fun n => match n with RInt _ => true | RNaN => false end;
  num_to_string := refnum_to_string;
  string_to_num := refnum_of_string;
  NaN_not_finite := eq_refl;
  NaN_falsy := eq_refl
|}.

(** ** The xml2js conversion *)

Definition fields := list (jstr * jsval refnum).

Fixpoint has_key (k : jstr) (obj : fields) : bool :=
  match obj with
  | [] => false
  | (k', _) :: r => jstr_eqb k k' || has_key k r
  end.

Fixpoint update (k : jstr) (f : jsval refnum -> jsval refnum) (obj : fields)
  : fields :=
  match obj with
  | [] => []
  | (k', v) :: r => if jstr_eqb k k' then (k', f v) :: r else (k', v) :: update k f r
  end.

Fixpoint remove (k : jstr) (obj : fields) : fields :=
  match obj with
  | [] => []
  | (k', v) :: r => if jstr_eqb k k' then r else (k', v) :: remove k r
  end.

Definition assignOrPush (obj : fields) (key : jstr) (newValue : jsval refnum) : fields :=
  if has_key key obj then
    update key (fun old => match old with
                           | JArr items => JArr (items ++ [newValue])
                           | _ => JArr [old; newValue]
                           end) obj
  else obj ++ [(key, newValue)].

Definition charkey : jstr := lit "_".
Definition attrkey : jstr := lit "$".

(** The text gathered so far under the character key. *)
Definition chars_of (v : jsval refnum) : jstr :=
  match v with
  | JStr s => s
  | _ => []
  end.

Definition ontext (text : jstr) (obj : fields) : fields :=
  update charkey (fun old => JStr (chars_of old ++ text)) obj.

Definition onopentag (attrs : list (jstr * jstr)) : fields :=
  (charkey, JStr []) ::
  match attrs with
  | [] => []
  | _ :: _ => [(attrkey, JObj (map (fun kv => (fst kv, JStr (snd kv))) attrs))]
  end.

Definition onclosetag (obj : fields) : jsval refnum :=
  let text := chars_of (lookup charkey obj) in
  if forallb js_space text then
    match remove charkey obj with
    | [] => JStr text
    | rest => JObj rest
    end
  else
    match obj with
    | [(_, t)] => t
    | _ => JObj obj
    end.

Fixpoint convert (n : Xml.node) : jsval refnum :=
  match n with
  | Xml.Text s => JStr s
  | Xml.Elem _ attrs kids =>
      onclosetag
        ((fix walk (l : list Xml.node) (obj : fields) : fields :=
            match l with
            | [] => obj
            | x :: r =>
                match x with
                | Xml.Text s => walk r (ontext s obj)
                | Xml.Elem name _ _ => walk r (assignOrPush obj name (convert x))
                end
            end) kids (onopentag attrs))
  end.

Definition parseString (str : jstr) : jsval refnum + JsError :=
  if forallb js_space str then inl JNull
  else
    match Xml.parse_xml str with
    | Some (Xml.Elem name attrs kids) =>
        inl (JObj [(name, convert (Xml.Elem name attrs kids))])
    | _ => inr {| message := lit "Invalid XML document" |}
    end.

End Ref.

(* ================================================================== *)
(** * Specification vocabulary *)

(** ** The envelope, as a parser must see it *)

Module EnvelopeSpec.
Import Xml.

(** What [xmlEscape] does to one character. *)
Definition escape_char (c : char) : jstr :=
  (if c =? 38 then lit "&amp;"
   else if c =? 60 then lit "&lt;"
   else if c =? 62 then lit "&gt;"
   else if c =? 34 then lit "&quot;"
   else if c =? 39 then lit "&apos;"
   else [c])%N.

Definition escape (s : jstr) : jstr := flat_map escape_char s.

Definition no_cr (s : jstr) : bool := forallb (fun c => negb (c =? CR)%N) s.

(** The string interpolated for a credential: [String] of the variable
    of the environment, which is a string or [undefined]. *)
Definition credential (v : option jstr) : jstr :=
  match v with
  | Some s => s
  | None => lit "undefined"
  end.

(** A string that does not begin with a line feed. *)
Definition not_lf_first (t : jstr) : bool :=
  match t with
  | c :: _ => negb (c =? LF)%N
  | [] => true
  end.

Definition close_tag (name : jstr) : jstr := lit "</" ++ name ++ lit ">".

(** White space of the template: a line feed and [n] spaces. *)
Definition ws (n : nat) : node := Text (LF :: repeat 32%N n).

Definition leaf (name : String.string) (s : jstr) : node :=
  Elem (lit name) [] (text_kids s).

(** The document the template denotes, with the five strings as
    character data. *)
Definition envelope_tree (username password firstName lastName ssn : jstr) : node :=
  Elem (lit "soapenv:Envelope")
    [(lit "xmlns:soapenv", lit "http://schemas.xmlsoap.org/soap/envelope/");
     (lit "xmlns:tlo", lit "http://tlo.com/")]
    [ws 2; Elem (lit "soapenv:Header") [] [];
     ws 2; Elem (lit "soapenv:Body") []
       [ws 4; Elem (lit "tlo:PersonSearch") []
          [ws 6; Elem (lit "tlo:genericSearchInput") []
             [ws 8; leaf "tlo:Username" username;
              ws 8; leaf "tlo:Password" password;
              ws 8; leaf "tlo:DPPAPurpose" (lit "0");
              ws 8; leaf "tlo:GLBPurpose" (lit "0");
              ws 8; leaf "tlo:NumberOfRecords" (lit "25");
              ws 8; leaf "tlo:StartingRecord" (lit "1");
              ws 8; Elem (lit "tlo:Name") []
                [ws 10; leaf "tlo:FirstName" firstName;
                 ws 10; leaf "tlo:LastName" lastName;
                 ws 8];
              ws 8; leaf "tlo:SSN" ssn;
              ws 6];
           ws 4];
        ws 2];
     ws 0].

Definition input_path : list jstr :=
  [lit "soapenv:Body"; lit "tlo:PersonSearch"; lit "tlo:genericSearchInput"].

Definition field (path : list jstr) (t : node) : option jstr :=
  option_map text_content (descend (input_path ++ path) t).

End EnvelopeSpec.

(** ** Requests, as the handler reads them *)

Section HandlerSpec.
Context {num : Type} {JN : JsNum num}.

(** A field of [req.body || {}]. *)
Definition field_of (req : Request num) (k : String.string) : jsval num :=
  get (js_or (req_body req) (JObj [])) (lit k).

Definition authenticated (cfg : Config) (req : Request num) : Prop :=
  x_shared_secret req = SHARED_SECRET cfg.

(** The three fields pass the check of the handler. *)
Definition validated (req : Request num) : Prop :=
  truthy (field_of req "firstName") = true
  /\ truthy (field_of req "lastName") = true
  /\ truthy (field_of req "ssn") = true.

(** [String()] returns on each of the three fields. *)
Definition convertible (req : Request num) : Prop :=
  ToString (field_of req "firstName") <> None
  /\ ToString (field_of req "lastName") <> None
  /\ ToString (field_of req "ssn") <> None.

(** The envelope built for a request, when [buildSoap] returns. *)
Definition envelope_of (cfg : Config) (req : Request num) : option jstr :=
  buildSoap cfg (field_of req "firstName") (field_of req "lastName")
    (field_of req "ssn").

(** The envelope the handler sends for a request (the empty string stands
    for the envelope of a request that has none). *)
Definition envelope (cfg : Config) (req : Request num) : jstr :=
  match envelope_of cfg req with
  | Some soap => soap
  | None => []
  end.

(** How the [k]-th outbound call of a request ends.  A request for which
    no envelope is built makes no call, and none of its calls settles. *)
Definition attempt_outcome (cfg : Config) (env : Environment) (req : Request num)
  (k : nat) : Promise Exchange :=
  match envelope_of cfg req with
  | Some soap => callTlo_promise (upstream env k soap)
  | None => Pending
  end.

(** The entry logged for a failed attempt, written when the trace has
    [pos] effects. *)
Definition warn_entry (env : Environment) (pos attempt : nat) (err : JsError)
  : Effect num :=
  ELog (JObj [(lit "ts", JStr (now env pos));
              (lit "level", JStr (lit "warn"));
              (lit "msg", JStr (lit "tlo_attempt_failed"));
              (lit "attempt", JNum (num_of_nat attempt));
              (lit "err", JStr (message err))]).

Definition unauthorized_response : Response num :=
  json 401 [(lit "ok", JBool false); (lit "error", JStr (lit "UNAUTHORIZED"))].

Definition invalid_input_response : Response num :=
  json 400 [(lit "ok", JBool false); (lit "error", JStr (lit "INVALID_INPUT"))].

(** HTTP 504 with the body [{"ok":false,"error":"TLO_TIMEOUT"}]. *)
Definition gateway_timeout_response : Response num :=
  {| status := 504;
     body := JObj [(lit "ok", JBool false);
                   (lit "error", JStr (lit "TLO_TIMEOUT"))] |}.

(** HTTP 200 with [ok: false, tloError: true] and the two fields of the
    result node as they are. *)
Definition business_error_response (errorCode errorMessage : jsval num)
  : Response num :=
  {| status := 200;
     body := JObj [(lit "ok", JBool false);
                   (lit "tloError", JBool true);
                   (lit "errorCode", errorCode);
                   (lit "errorMessage", errorMessage)] |}.

(** HTTP 200 with [ok: true], the transaction id, the count and the
    result node. *)
Definition success_response (result : jsval num) (recordsFound : num)
  : Response num :=
  {| status := 200;
     body := JObj [(lit "ok", JBool true);
                   (lit "transactionId", get result (lit "TransactionId"));
                   (lit "recordsFound", JNum recordsFound);
                   (lit "data", result)] |}.

(** The status of the response, when there is one. *)
Definition answered_status (o : Outcome num) : option nat :=
  match o with
  | Responded r => Some (status r)
  | _ => None
  end.

(** The text of a response body, as [res.json] sends it. *)
Definition body_text (r : Response num) : jstr :=
  match stringify (body r) with
  | Some t => t
  | None => []
  end.

(** One member of a serialised object; a property whose value is
    [undefined] is left out. *)
Definition member (k : String.string) (v : jsval num) : list jstr :=
  match stringify v with
  | Some t => [quote (lit k) ++ lit ":" ++ t]
  | None => []
  end.

(** The error with which the [k]-th call of the loop ends in the [catch]
    block, if it does: the call was rejected, or it completed with a body
    that the parser rejects, or with a result node whose count cannot be
    converted. *)
Definition attempt_failure (parse : jstr -> jsval num + JsError)
  (env : Environment) (soap : jstr) (k : nat) : option JsError :=
  match callTlo_promise (upstream env k soap) with
  | Pending => None
  | Rejected err => Some err
  | Resolved x =>
      match parse (raw x) with
      | inr err => Some err
      | inl parsed =>
          match classify x parsed with
          | Some _ => None
          | None => Some cannot_convert
          end
      end
  end.

(** An attempt that the loop treats as failed. *)
Definition caught (parse : jstr -> jsval num + JsError) (env : Environment)
  (soap : jstr) (k : nat) : Prop :=
  exists err, attempt_failure parse env soap k = Some err.

(** A trace with the bodies of the outbound calls blanked. *)
Definition blank (e : Effect num) : Effect num :=
  match e with
  | ECall _ => ECall []
  | ELog entry => ELog entry
  end.

(** An upstream whose behaviour does not depend on what it is sent. *)
Definition oblivious (events : nat -> list ReqEvent) (clock : nat -> jstr)
  : Environment :=
  {| upstream := fun k _ => events k; now := clock |}.

End HandlerSpec.

(* ================================================================== *)
(** * Sample data

    A configuration, requests and upstream behaviours on which the
    handler is run with the reference collaborators. *)

Module Sample.
Import Ref.

Definition penv : ProcessEnv := {|
  env_SHARED_SECRET := Some (lit "s3cret");
  env_TLO_USERNAME := Some (lit "acct-7");
  env_TLO_PASSWORD := Some (lit "p&ss<w>rd")
|}.

Definition cfg : Config := CONFIG penv.

Definition person (firstName lastName ssn : jsval refnum) : jsval refnum :=
  JObj [(lit "firstName", firstName); (lit "lastName", lastName); (lit "ssn", ssn)].

Definition ann : jsval refnum :=
  person (JStr (lit "Ann")) (JStr (lit "O'Neil")) (JStr (lit "123456789")).

Definition request (body : jsval refnum) : Request refnum :=
  {| x_shared_secret := Some (lit "s3cret"); req_body := body |}.

(** The answer of the upstream service around a result node. *)
Definition soap_response (inner : jstr) : jstr :=
  lit "<?xml version=" ++ quoted "1.0" ++ lit " encoding=" ++ quoted "utf-8" ++ lit "?>" ++
  lit "<soap:Envelope xmlns:soap=" ++ quoted "http://schemas.xmlsoap.org/soap/envelope/" ++ lit ">" ++
  lit "<soap:Body><PersonSearchResponse xmlns=" ++ quoted "http://tlo.com/" ++ lit ">" ++
  lit "<PersonSearchResult>" ++ inner ++ lit "</PersonSearchResult>" ++
  lit "</PersonSearchResponse></soap:Body></soap:Envelope>".

Definition clock (k : nat) : jstr := lit "2024-05-01T10:00:0" ++ digits (N.of_nat k) ++ lit ".000Z".

(** Every attempt completes with status 200 and the body [raw]. *)
Definition answering (raw : jstr) : Environment := {|
  upstream := fun _ _ => [EvResponse 200; EvData raw; EvEnd];
  now := clock
|}.

(** Every attempt fails on the connection. *)
Definition refused (k : nat) : JsError :=
  {| message := lit "connect ECONNREFUSED #" ++ digits (N.of_nat k) |}.

Definition refusals (k : nat) : list ReqEvent := [EvError (refused k)].

Definition refusing : Environment := oblivious refusals clock.

(** The first two attempts fail on the connection, the third completes
    with the body [raw]. *)
Definition flaky (raw : jstr) : Environment := {|
  upstream := fun k _ =>
    if k <? 2 then refusals k else [EvResponse 200; EvData raw; EvEnd];
  now := clock
|}.

(** The upstream accepts the connection and stays silent: the socket
    idles for TIMEOUT_MS and the runtime emits 'timeout'. *)
Definition silent : Environment := {|
  upstream := fun _ _ => [EvTimeout];
  now := clock
|}.

Definition handle (e : Environment) (req : Request refnum)
  : Outcome refnum * list (Effect refnum) :=
  serve cfg parseString e req.

(** A request without the x-shared-secret header. *)
Definition anonymous : Request refnum := {| x_shared_secret := None; req_body := ann |}.

(** A body with an empty lastName and no ssn. *)
Definition incomplete : jsval refnum :=
  JObj [(lit "firstName", JStr (lit "Ann")); (lit "lastName", JStr [])].

(** A body whose firstName is the boolean true. *)
Definition untyped : jsval refnum :=
  person (JBool true) (JStr (lit "O'Neil")) (JStr (lit "123456789")).

(** Upstream answers. *)
Definition found3 : jstr :=
  soap_response (lit "<ErrorCode>0</ErrorCode><TransactionId>tx-1</TransactionId><NumberOfRecordsFound>3</NumberOfRecordsFound>").

Definition code12 : jstr :=
  soap_response (lit "<ErrorCode>12</ErrorCode><ErrorMessage>No records</ErrorMessage>").

Definition empty_code : jstr :=
  soap_response (lit "<ErrorCode></ErrorCode><ErrorMessage>failed</ErrorMessage>").

Definition uncounted : jstr :=
  soap_response (lit "<ErrorCode>0</ErrorCode><NumberOfRecordsFound>many</NumberOfRecordsFound>").

(** A document cut off before its end tags. *)
Definition truncated : jstr := lit "<soap:Envelope><soap:Body>".

Definition completed (doc : jstr) : Exchange := {| httpStatus := 200; raw := doc |}.

Definition parsed_of (doc : jstr) : jsval refnum :=
  match parseString doc with
  | inl v => v
  | inr _ => JUndefined
  end.

Definition invalid_xml : JsError := {| message := lit "Invalid XML document" |}.

(** Another deployment: every credential differs. *)
Definition cfg_rotated : Config :=
  CONFIG {| env_SHARED_SECRET := Some (lit "r0tated");
            env_TLO_USERNAME := Some (lit "acct-9");
            env_TLO_PASSWORD := Some (lit "hunter2") |}.

Definition request_rotated (body : jsval refnum) : Request refnum :=
  {| x_shared_secret := Some (lit "r0tated"); req_body := body |}.

(** A configuration read from an environment without SHARED_SECRET. *)
Definition cfg_unset : Config :=
  CONFIG {| env_SHARED_SECRET := None;
            env_TLO_USERNAME := Some (lit "acct-7");
            env_TLO_PASSWORD := Some (lit "hunter2") |}.

(** Query fields with the five reserved characters. *)
Definition reserved_first : jsval refnum := JStr (lit "Ann & <Bob>").
Definition reserved_ssn : jsval refnum := JStr (lit "12" ++ [dquote] ++ lit "3").

(** A first name that is the control character U+0001. *)
Definition control_first : jsval refnum := JStr [1%N].

Definition with_control : jsval refnum :=
  person control_first (JStr (lit "O'Neil")) (JStr (lit "123456789")).

(** A name with a carriage return between two letters. *)
Definition cr_first : jsval refnum := JStr [65%N; CR; 66%N].

Definition with_return : jsval refnum :=
  person cr_first (JStr (lit "B")) (JStr (lit "1")).

(** A body whose firstName is the object {"toString": 1}. *)
Definition unconvertible : jsval refnum :=
  person (JObj [(lit "toString", JNum (RInt 1))]) (JStr (lit "O'Neil"))
    (JStr (lit "123456789")).

(** An answer whose NumberOfRecordsFound has the child elements valueOf
    and toString. *)
Definition uncountable : jstr :=
  soap_response (lit "<ErrorCode>0</ErrorCode><NumberOfRecordsFound><valueOf>1</valueOf><toString>2</toString></NumberOfRecordsFound>").

End Sample.

(* ================================================================== *)
(** * Further vocabulary

    Notions for the properties of the escaping function, of the
    transport client and of the traces beyond the envelope and the
    classification. *)

Module EscapeSpec.

(** The characters [xmlEscape] rewrites. *)
Definition reserved (c : char) : bool :=
  ((c =? 38) || (c =? 60) || (c =? 62) || (c =? 34) || (c =? 39))%N.

(** The characters that delimit markup or attribute values. *)
Definition markup (c : char) : bool :=
  ((c =? 60) || (c =? 62) || (c =? 34) || (c =? 39))%N.

(** A string without reserved characters. *)
Definition plain (s : jstr) : bool := forallb (fun c => negb (reserved c)) s.

End EscapeSpec.

Section TraceSpec.
Context {num : Type} {JN : JsNum num}.

Definition is_timeout (ev : ReqEvent) : bool :=
  match ev with
  | EvTimeout => true
  | _ => false
  end.

(** The events of an exchange that completes: the response, its chunks
    in order, the end. *)
Definition exchange_events (code : nat) (chunks : list jstr) : list ReqEvent :=
  EvResponse code :: map EvData chunks ++ [EvEnd].

(** Every outbound call of the request settles, one way or the other. *)
Definition settles (cfg : Config) (env : Environment) (req : Request num) : Prop :=
  forall k, attempt_outcome cfg env req k <> Pending.

(** The status codes the handler sends. *)
Definition known_status (code : nat) : bool :=
  (code =? 200) || (code =? 400) || (code =? 401) || (code =? 502)
  || (code =? 504).

(** The rawStart member of a body, when it has one. *)
Definition rawStart_of (r : Response num) : option jstr :=
  match get (body r) (lit "rawStart") with
  | JStr s => Some s
  | _ => None
  end.

(** An event without the status code of the response. *)
Definition without_status (ev : ReqEvent) : ReqEvent :=
  match ev with
  | EvResponse _ => EvResponse 0
  | _ => ev
  end.

(** Two environments that deliver the same events to every call, but
    for the status codes of the responses, and tell the same time. *)
Definition alike_but_for_status (env1 env2 : Environment) : Prop :=
  (forall k soap,
      map without_status (upstream env1 k soap)
      = map without_status (upstream env2 k soap))
  /\ (forall k, now env1 k = now env2 k).

(** Two promises that end alike, but for the status code of a completed
    exchange; two responses under way with the same chunks. *)
Definition same_body (p q : Promise Exchange) : Prop :=
  match p, q with
  | Pending, Pending => True
  | Resolved x, Resolved y => raw x = raw y
  | Rejected e, Rejected e' => e = e'
  | _, _ => False
  end.

Definition same_chunks (a b : option (nat * list jstr)) : Prop :=
  match a, b with
  | None, None => True
  | Some (_, c), Some (_, d) => c = d
  | _, _ => False
  end.

(** A trace that stands between two attempts: each of its calls failed
    and is followed by the entry of its failure. *)
Definition failures_logged (parse : jstr -> jsval num + JsError)
  (env : Environment) (soap : jstr) (t : list (Effect num)) : Prop :=
  length t = 2 * calls t
  /\ length (logged t) = calls t
  /\ forall i, i < calls t ->
       exists err,
         attempt_failure parse env soap i = Some err
         /\ nth_error (logged t) i
            = Some (warn_entry env (2 * i + 1) (i + 1) err).

(** A body that is not an object with named properties: absent, null, a
    primitive or an array. *)
Definition not_an_object (v : jsval num) : bool :=
  match v with
  | JObj _ | JBare _ => false
  | _ => true
  end.

End TraceSpec.

(** Sample data for the further properties. *)
Module More.
Import Ref Sample.

(** The third attempt completes after a refused one and a rejected body. *)
Definition recovering : Environment := {|
  upstream := fun k _ =>
    match k with
    | 0 => refusals 0
    | 1 => exchange_events 200 [truncated]
    | _ => exchange_events 200 [lit "<?xml version="; quoted "1.0";
                                lit "?><soap:Envelope><soap:Body><PersonSearchResponse>";
                                lit "<PersonSearchResult><ErrorCode>0</ErrorCode>";
                                lit "</PersonSearchResult></PersonSearchResponse>";
                                lit "</soap:Body></soap:Envelope>"]
    end;
  now := clock
|}.

Definition recovered : Exchange :=
  {| httpStatus := 200;
     raw := lit "<?xml version=" ++ quoted "1.0" ++
            lit "?><soap:Envelope><soap:Body><PersonSearchResponse>" ++
            lit "<PersonSearchResult><ErrorCode>0</ErrorCode>" ++
            lit "</PersonSearchResult></PersonSearchResponse>" ++
            lit "</soap:Body></soap:Envelope>" |}.

(** A response that has begun when the connection is reset. *)
Definition begun : list ReqEvent := [EvResponse 200; EvData (lit "<soap:Envelope>")].

(** The same answer, sent with status 200 or with status 500. *)
Definition answering_with (code : nat) (doc : jstr) : Environment := {|
  upstream := fun _ _ => exchange_events code [doc];
  now := clock
|}.

(** A body longer than 500 code units without a result node. *)
Definition long_page : jstr :=
  lit "<html>" ++ repeat 120%N 600 ++ lit "</html>".

(** The first attempt is refused, the second is answered with the long
    page. *)
Definition late_page : Environment := {|
  upstream := fun k _ =>
    match k with
    | 0 => refusals 0
    | _ => exchange_events 200 [long_page]
    end;
  now := clock
|}.

End More.

(* ================================================================== *)
(** * Properties *)

(** ** Strings *)

Lemma jstr_eqb_spec a b : reflect (a = b) (jstr_eqb a b).
Proof.
  revert b; induction a as [|x a IH]; intros [|y b]; simpl;
    try (constructor; congruence).
  destruct (N.eqb_spec x y) as [->|Hne]; simpl.
  - destruct (IH b) as [->|Hne]; constructor; congruence.
  - constructor; congruence.
Qed.

Lemma jstr_eqb_refl a : jstr_eqb a a = true.
Proof. destruct (jstr_eqb_spec a a); congruence. Qed.

Lemma opt_jstr_eqb_spec a b : reflect (a = b) (opt_jstr_eqb a b).
Proof.
  destruct a as [x|], b as [y|]; simpl; try (constructor; congruence).
  destruct (jstr_eqb_spec x y); constructor; congruence.
Qed.

Lemma replace_all_app c w a b :
  replace_all c w (a ++ b) = replace_all c w a ++ replace_all c w b.
Proof. apply flat_map_app. Qed.

(** ** The escaping function *)

Section Escaping.
Context {num : Type} {JN : JsNum num}.
Import EnvelopeSpec.

(** The five replacements amount to one pass over the characters. *)
Lemma replacements_escape (s : jstr) :
  replace_all squote (lit "&apos;")
    (replace_all dquote (lit "&quot;")
      (replace_all 62%N (lit "&gt;")
        (replace_all 60%N (lit "&lt;")
          (replace_all 38%N (lit "&amp;") s))))
  = escape s.
Proof.
  unfold escape.
  induction s as [|c s IH]; [reflexivity|].
  change (c :: s) with ([c] ++ s).
  rewrite !replace_all_app, IH. rewrite flat_map_app. f_equal.
  unfold escape_char, replace_all; simpl.
  destruct (N.eqb_spec c 38) as [->|H38]; [reflexivity|].
  simpl. destruct (N.eqb_spec c 60) as [->|H60]; [reflexivity|].
  simpl. destruct (N.eqb_spec c 62) as [->|H62]; [reflexivity|].
  simpl. destruct (N.eqb_spec c dquote) as [->|H34]; [reflexivity|].
  simpl. destruct (N.eqb_spec c 34) as [->|_]; [contradiction H34; reflexivity|].
  destruct (N.eqb_spec c squote) as [->|H39]; [reflexivity|].
  destruct (N.eqb_spec c 39) as [->|_]; [contradiction H39; reflexivity|].
  reflexivity.
Qed.

Lemma xmlEscape_escape (v : jsval num) :
  xmlEscape v = option_map escape (ToString v).
Proof.
  unfold xmlEscape. destruct (ToString v) as [s|]; [|reflexivity].
  simpl. now rewrite replacements_escape.
Qed.

Lemma ToString_of_env (v : option jstr) :
  ToString (of_env (num := num) v) = Some (credential v).
Proof. destruct v; reflexivity. Qed.

(** [buildSoap] returns exactly when [String] returns on the three
    fields, and then fills the template with the escaped strings. *)
Lemma buildSoap_eq cfg (firstName lastName ssn : jsval num) :
  buildSoap cfg firstName lastName ssn
  = match ToString firstName, ToString lastName, ToString ssn with
    | Some f, Some l, Some s =>
        Some (soap_template (escape (credential (TLO_USERNAME cfg)))
                (escape (credential (TLO_PASSWORD cfg)))
                (escape f) (escape l) (escape s))
    | _, _, _ => None
    end.
Proof.
  unfold buildSoap. rewrite !xmlEscape_escape, !ToString_of_env.
  destruct (ToString firstName), (ToString lastName), (ToString ssn);
    reflexivity.
Qed.

End Escaping.

(** ** The reference parser on escaped text *)

Module XmlFacts.
Import Xml EnvelopeSpec.

Lemma chars_ok_app p a b :
  chars_ok p a = true -> chars_ok p (a ++ b) = chars_ok false b.
Proof.
  revert p; induction a as [|c a IH]; intros p; simpl.
  - destruct p; [discriminate | reflexivity].
  - destruct p.
    + destruct (low_surrogate c); simpl; [apply IH | discriminate].
    + destruct (bmp_char c); [apply IH|].
      destruct (high_surrogate c); simpl; [apply IH | discriminate].
Qed.

Lemma xml_chars_app a b :
  xml_chars a = true -> xml_chars b = true -> xml_chars (a ++ b) = true.
Proof. unfold xml_chars. intros Ha Hb. now rewrite chars_ok_app. Qed.

(** A character that [xmlEscape] rewrites is none of the surrogates. *)
Lemma escape_char_low c : low_surrogate c = true -> escape_char c = [c].
Proof.
  unfold low_surrogate, between, escape_char. intros H.
  apply andb_true_iff in H as [H _]. apply N.leb_le in H.
  repeat match goal with
         | |- context [N.eqb c ?k] => destruct (N.eqb_spec c k); [lia|]
         end.
  reflexivity.
Qed.

Lemma escape_char_high c :
  bmp_char c = false -> high_surrogate c = true -> escape_char c = [c].
Proof.
  unfold high_surrogate, between, escape_char. intros _ H.
  apply andb_true_iff in H as [H _]. apply N.leb_le in H.
  repeat match goal with
         | |- context [N.eqb c ?k] => destruct (N.eqb_spec c k); [lia|]
         end.
  reflexivity.
Qed.

Lemma escape_char_bmp c : bmp_char c = true -> chars_ok false (escape_char c) = true.
Proof.
  intros H. unfold escape_char.
  repeat match goal with
         | |- context [N.eqb c ?k] => destruct (N.eqb_spec c k); [reflexivity|]
         end.
  simpl. now rewrite H.
Qed.

Lemma chars_ok_escape p s : chars_ok p s = true -> chars_ok p (escape s) = true.
Proof.
  revert p; induction s as [|c s IH]; intros p; simpl; [trivial|].
  destruct p.
  - destruct (low_surrogate c) eqn:Hl; simpl; [|discriminate].
    intros H. rewrite (escape_char_low _ Hl). simpl. rewrite Hl. simpl. auto.
  - destruct (bmp_char c) eqn:Hb.
    + intros H. rewrite chars_ok_app by now apply escape_char_bmp. auto.
    + destruct (high_surrogate c) eqn:Hh; simpl; [|discriminate].
      intros H. rewrite (escape_char_high _ Hb Hh). simpl. rewrite Hb, Hh. simpl. auto.
Qed.

Lemma xml_chars_escape s : xml_chars s = true -> xml_chars (escape s) = true.
Proof. apply chars_ok_escape. Qed.

Lemma normalize_no_cr s : no_cr s = true -> normalize_eol s = s.
Proof.
  induction s as [|c s IH]; simpl; [trivial|].
  intros H. apply andb_true_iff in H as [Hc Hs].
  apply negb_true_iff in Hc. rewrite Hc. now rewrite IH.
Qed.

(** End-of-line handling passes over a prefix without carriage return. *)
Lemma normalize_lit a rest :
  no_cr a = true -> normalize_eol (a ++ rest) = a ++ normalize_eol rest.
Proof.
  induction a as [|c a IH]; [reflexivity|].
  intros H. cbn [no_cr forallb] in H. apply andb_true_iff in H as [Hc Ha].
  apply negb_true_iff in Hc.
  cbn [app normalize_eol]. rewrite Hc. f_equal. now apply IH.
Qed.

Lemma no_cr_escape_char c : (c =? CR)%N = false -> no_cr (escape_char c) = true.
Proof.
  intros Hc. unfold escape_char.
  repeat match goal with
         | |- context [N.eqb c ?k] => destruct (N.eqb_spec c k); [reflexivity|]
         end.
  simpl. now rewrite Hc.
Qed.

Lemma escape_not_lf_first c s t :
  (c =? LF)%N = false -> not_lf_first (escape (c :: s) ++ t) = true.
Proof.
  intros Hc. change (escape (c :: s)) with (escape_char c ++ escape s).
  unfold escape_char.
  repeat match goal with
         | |- context [N.eqb c ?k] => destruct (N.eqb_spec c k); [reflexivity|]
         end.
  simpl. now rewrite Hc.
Qed.

(** Escaping and end-of-line handling commute, in front of anything that
    does not begin with a line feed. *)
Lemma normalize_escape_upto n : forall s t,
  length s <= n -> not_lf_first t = true ->
  normalize_eol (escape s ++ t) = escape (normalize_eol s) ++ normalize_eol t.
Proof.
  induction n as [|n IH]; intros s t Hlen Ht.
  - destruct s; [reflexivity | simpl in Hlen; lia].
  - destruct s as [|c s]; [reflexivity|].
    simpl in Hlen.
    destruct (N.eqb_spec c CR) as [->|Hc].
    + change (escape (CR :: s)) with (CR :: escape s).
      destruct s as [|d s].
      * cbn [escape flat_map app normalize_eol]. change (CR =? CR)%N with true.
        cbv iota.
        destruct t as [|c' r']; [reflexivity|].
        cbn [not_lf_first] in Ht. apply negb_true_iff in Ht. rewrite Ht.
        reflexivity.
      * destruct (N.eqb_spec d LF) as [->|Hd].
        -- change (escape (LF :: s)) with (LF :: escape s).
           cbn [app normalize_eol]. change (CR =? CR)%N with true.
           change (LF =? LF)%N with true. cbv iota.
           rewrite IH by (trivial; simpl in Hlen; lia).
           reflexivity.
        -- apply N.eqb_neq in Hd.
           pose proof (escape_not_lf_first d s t Hd) as Hfirst.
           cbn [app normalize_eol]. change (CR =? CR)%N with true. cbv iota.
           rewrite Hd.
           destruct (escape (d :: s) ++ t) as [|c' r'] eqn:E.
           { exfalso. change (escape (d :: s)) with (escape_char d ++ escape s) in E.
             unfold escape_char in E.
             repeat match type of E with
                    | context [N.eqb d ?k] => destruct (N.eqb d k)
                    end; discriminate E. }
           assert (Hc' : not_lf_first (c' :: r') = true)
             by (rewrite <- E; exact Hfirst).
           cbn [not_lf_first] in Hc'. apply negb_true_iff in Hc'.
           rewrite Hc'. rewrite <- E.
           rewrite IH by (trivial; simpl in Hlen |- *; lia).
           reflexivity.
    + apply N.eqb_neq in Hc.
      change (escape (c :: s)) with (escape_char c ++ escape s).
      rewrite <- app_assoc.
      rewrite normalize_lit by now apply no_cr_escape_char.
      rewrite IH by (trivial; lia).
      cbn [normalize_eol]. rewrite Hc.
      change (escape (c :: normalize_eol s))
        with (escape_char c ++ escape (normalize_eol s)).
      now rewrite <- app_assoc.
Qed.

Lemma normalize_escape s t :
  not_lf_first t = true ->
  normalize_eol (escape s ++ t) = escape (normalize_eol s) ++ normalize_eol t.
Proof. apply (normalize_escape_upto (length s)). lia. Qed.

(** *** Running the parser over a concatenation *)

Lemma run_seq st a b st' : run st a = Some st' -> run st (a ++ b) = run st' b.
Proof.
  revert st; induction a as [|c a IH]; intros st; simpl.
  - now intros [= ->].
  - destruct (step st c); [apply IH | discriminate].
Qed.

(** Inside an element, escaped text is read back as the text. *)
Lemma run_escape s : forall acc f fs root,
  run (PState (MContent acc) (f :: fs) root) (escape s)
  = Some (PState (MContent (rev s ++ acc)) (f :: fs) root).
Proof.
  induction s as [|c s IH]; intros acc f fs root; [reflexivity|].
  change (escape (c :: s)) with (escape_char c ++ escape s).
  rewrite run_seq with (st' := PState (MContent (c :: acc)) (f :: fs) root).
  - rewrite IH. simpl. now rewrite <- app_assoc.
  - unfold escape_char.
    destruct (N.eqb_spec c 38) as [->|H38]; [reflexivity|].
    destruct (N.eqb_spec c 60) as [->|H60]; [reflexivity|].
    destruct (N.eqb_spec c 62) as [->|H62]; [reflexivity|].
    destruct (N.eqb_spec c 34) as [->|H34]; [reflexivity|].
    destruct (N.eqb_spec c 39) as [->|H39]; [reflexivity|].
    simpl. unfold step; simpl.
    apply N.eqb_neq in H38, H60, H62. now rewrite H38, H60, H62.
Qed.

(** The name of an end tag. *)
Lemma run_close_name n : forall c0 acc stack root,
  forallb name_char n = true ->
  run (PState (MCloseName (c0 :: acc)) stack root) n
  = Some (PState (MCloseName (rev n ++ c0 :: acc)) stack root).
Proof.
  induction n as [|c n IH]; intros c0 acc stack root H; [reflexivity|].
  cbn [forallb] in H. apply andb_true_iff in H as [Hc Hn].
  cbn [run]. unfold step at 1; cbn [p_mode p_stack p_root]. rewrite Hc.
  rewrite IH by assumption. cbn [rev]. now rewrite <- app_assoc.
Qed.

(** An element whose content is escaped text, up to and including its
    end tag, becomes a child of the enclosing element. *)
Lemma run_leaf name attrs s parent fs root rest :
  valid_name name = true ->
  run (PState (MContent []) (Frame name attrs [] :: parent :: fs) root)
      (escape s ++ close_tag name ++ rest)
  = run (PState (MContent [])
           (Frame (f_name parent) (f_attrs parent)
              (Elem name attrs (text_kids s) :: f_kids parent) :: fs) root)
        rest.
Proof.
  intros Hname.
  rewrite (run_seq _ _ _ _ (run_escape s [] _ _ _)).
  destruct name as [|n0 name]; [discriminate|].
  cbn [valid_name] in Hname. apply andb_true_iff in Hname as [H0 Hn].
  unfold close_tag. rewrite app_nil_r.
  change ((lit "</" ++ (n0 :: name) ++ lit ">") ++ rest)
    with (60%N :: 47%N :: n0 :: ((name ++ [62%N]) ++ rest)).
  rewrite <- app_assoc. change ([62%N] ++ rest) with (62%N :: rest).
  cbn [run]. unfold step at 1. cbn [p_mode p_stack p_root N.eqb Pos.eqb].
  unfold step at 1. cbn [p_mode p_stack p_root N.eqb Pos.eqb].
  unfold step at 1. cbn [p_mode p_stack p_root]. rewrite H0.
  rewrite (run_seq _ _ _ _ (run_close_name name n0 [] _ _ Hn)).
  cbn [run]. unfold step at 1. cbn [p_mode p_stack p_root].
  change (name_char 62%N) with false. change (is_space 62%N) with false.
  cbn [N.eqb Pos.eqb].
  assert (Hrev : rev (rev name ++ [n0]) = n0 :: name).
  { rewrite rev_app_distr, rev_involutive. reflexivity. }
  unfold close_elem. rewrite Hrev.
  destruct s as [|c s].
  - cbn [rev flush f_name f_attrs f_kids].
    rewrite jstr_eqb_refl. reflexivity.
  - assert (Hne : exists x xs, rev (c :: s) = x :: xs).
    { destruct (rev (c :: s)) eqn:E; [|eauto].
      apply (f_equal (@length _)) in E. rewrite length_rev in E. discriminate. }
    destruct Hne as (x & xs & E). rewrite E.
    cbn [flush f_name f_attrs f_kids]. rewrite <- E, rev_involutive.
    rewrite jstr_eqb_refl. reflexivity.
Qed.

End XmlFacts.

(** ** The envelope *)

Section EnvelopeProperties.
Context {num : Type} {JN : JsNum num}.
Import Xml EnvelopeSpec XmlFacts.

Ltac lit_step :=
  match goal with
  | |- run ?st (?A ++ ?B) = _ =>
      let r := eval vm_compute in (run st A) in
      match r with
      | Some ?st' =>
          refine (eq_trans (@run_seq st A B st' _) _);
          [vm_compute; reflexivity|]
      end
  end.

Ltac leaf_step :=
  match goal with
  | |- run (PState _ (Frame ?name ?attrs _ :: ?parent :: ?fs) ?root)
           (escape ?s ++ _ ++ ?rest) = _ =>
      refine (eq_trans (@run_leaf name attrs s parent fs root rest eq_refl) _)
  end.

(** The parser on the template filled with escaped strings. *)
Lemma run_template (u p f l s : jstr) :
  run init (soap_template (escape u) (escape p) (escape f) (escape l) (escape s))
  = Some (PState (MContent []) [] (Some (envelope_tree u p f l s))).
Proof.
  unfold soap_template.
  repeat first [leaf_step | lit_step].
  vm_compute. reflexivity.
Qed.

(** End-of-line handling on the template: it acts on the five strings
    only. *)
Lemma normalize_template (u p f l s : jstr) :
  normalize_eol
    (soap_template (escape u) (escape p) (escape f) (escape l) (escape s))
  = soap_template (escape (normalize_eol u)) (escape (normalize_eol p))
      (escape (normalize_eol f)) (escape (normalize_eol l))
      (escape (normalize_eol s)).
Proof.
  unfold soap_template.
  repeat first [rewrite normalize_escape by reflexivity
               | rewrite normalize_lit by reflexivity].
  rewrite (normalize_no_cr (lit "</soapenv:Envelope>")) by reflexivity.
  reflexivity.
Qed.

Lemma template_chars (u p f l s : jstr) :
  xml_chars u = true -> xml_chars p = true -> xml_chars f = true ->
  xml_chars l = true -> xml_chars s = true ->
  xml_chars
    (soap_template (escape u) (escape p) (escape f) (escape l) (escape s))
  = true.
Proof.
  intros Hu Hp Hf Hl Hs. unfold soap_template.
  repeat (apply xml_chars_app;
          [first [reflexivity | apply xml_chars_escape; assumption]|]).
  reflexivity.
Qed.

End EnvelopeProperties.

Section EnvelopeTheorems.
Context {num : Type} {JN : JsNum num}.
Import Xml EnvelopeSpec XmlFacts.

Lemma text_of_text_kids s : text_of_kids (text_kids s) = s.
Proof. destruct s; simpl; [reflexivity | now rewrite app_nil_r]. Qed.

(** C8, amended: when the two credentials and the strings of the three
    query fields consist of characters that are legal in XML 1.0
    (carriage returns and the five reserved characters included), the
    envelope built from them is well-formed: the reference parser accepts
    it; the tree it returns is the fixed tree of the template whatever
    the five strings contain (no injected tag); and each of the five
    strings is read back, unescaped, as the character data of its own
    element, after the end-of-line handling of the parser (a carriage
    return, alone or before a line feed, is read back as a line feed),
    hence exactly as it was given when it holds no carriage return. *)
Theorem envelope_well_formed_roundtrip cfg (firstName lastName ssn : jsval num)
  (f l s : jstr) :
  ToString firstName = Some f ->
  ToString lastName = Some l ->
  ToString ssn = Some s ->
  xml_chars (credential (TLO_USERNAME cfg)) = true ->
  xml_chars (credential (TLO_PASSWORD cfg)) = true ->
  xml_chars f = true ->
  xml_chars l = true ->
  xml_chars s = true ->
  exists soap t,
    buildSoap cfg firstName lastName ssn = Some soap
    /\ parse_xml soap = Some t
    /\ t = envelope_tree (normalize_eol (credential (TLO_USERNAME cfg)))
             (normalize_eol (credential (TLO_PASSWORD cfg)))
             (normalize_eol f) (normalize_eol l) (normalize_eol s)
    /\ field [lit "tlo:Username"] t
       = Some (normalize_eol (credential (TLO_USERNAME cfg)))
    /\ field [lit "tlo:Password"] t
       = Some (normalize_eol (credential (TLO_PASSWORD cfg)))
    /\ field [lit "tlo:Name"; lit "tlo:FirstName"] t = Some (normalize_eol f)
    /\ field [lit "tlo:Name"; lit "tlo:LastName"] t = Some (normalize_eol l)
    /\ field [lit "tlo:SSN"] t = Some (normalize_eol s)
    /\ (no_cr (credential (TLO_USERNAME cfg)) = true ->
        field [lit "tlo:Username"] t = Some (credential (TLO_USERNAME cfg)))
    /\ (no_cr (credential (TLO_PASSWORD cfg)) = true ->
        field [lit "tlo:Password"] t = Some (credential (TLO_PASSWORD cfg)))
    /\ (no_cr f = true ->
        field [lit "tlo:Name"; lit "tlo:FirstName"] t = Some f)
    /\ (no_cr l = true ->
        field [lit "tlo:Name"; lit "tlo:LastName"] t = Some l)
    /\ (no_cr s = true -> field [lit "tlo:SSN"] t = Some s).
Proof.
  intros Ef El Es Hu Hp Hf Hl Hs.
  exists (soap_template (escape (credential (TLO_USERNAME cfg)))
            (escape (credential (TLO_PASSWORD cfg)))
            (escape f) (escape l) (escape s)).
  eexists. split; [|split; [|split; [reflexivity|]]].
  - rewrite buildSoap_eq, Ef, El, Es. reflexivity.
  - unfold parse_xml.
    rewrite (template_chars _ _ _ _ _ Hu Hp Hf Hl Hs).
    rewrite normalize_template, run_template. reflexivity.
  - unfold field, envelope_tree, leaf.
    repeat split; cbn; try (now rewrite text_of_text_kids);
      intros Hn; rewrite text_of_text_kids; now rewrite normalize_no_cr.
Qed.

End EnvelopeTheorems.

(** ** The handler *)

Section HandlerProperties.
Context {num : Type} {JN : JsNum num}.
Variable cfg : Config.
Variable parse : jstr -> jsval num + JsError.
Variable env : Environment.

Lemma calls_app (t : list (Effect num)) e :
  calls (t ++ [e]) = calls t + (if is_call e then 1 else 0).
Proof.
  unfold calls. rewrite filter_app, length_app. simpl.
  destruct (is_call e); reflexivity.
Qed.

Lemma calls_concat (t t' : list (Effect num)) :
  calls (t ++ t') = calls t + calls t'.
Proof. unfold calls. now rewrite filter_app, length_app. Qed.

Lemma logged_app (t : list (Effect num)) e :
  length (logged (t ++ [e]))
  = length (logged t) + (if is_log e then 1 else 0).
Proof.
  unfold logged. rewrite filter_app, length_app. simpl.
  destruct (is_log e); reflexivity.
Qed.

Lemma logged_call (t : list (Effect num)) soap :
  logged (t ++ [ECall soap]) = logged t.
Proof. unfold logged. rewrite filter_app. cbn. apply app_nil_r. Qed.

Lemma logged_warn (t : list (Effect num)) pos attempt err :
  logged (t ++ [warn_entry env pos attempt err])
  = logged t ++ [warn_entry env pos attempt err].
Proof. unfold logged. rewrite filter_app. reflexivity. Qed.

(** *** The envelope of a request *)

(** The envelope is built exactly when [String] returns on the three
    fields. *)
Lemma envelope_of_convertible req :
  convertible req <-> exists soap, envelope_of cfg req = Some soap.
Proof.
  unfold convertible, envelope_of. rewrite buildSoap_eq.
  destruct (ToString (field_of req "firstName")),
           (ToString (field_of req "lastName")),
           (ToString (field_of req "ssn")); split;
    try (intros _; eexists; reflexivity);
    try (intros (H1 & H2 & H3); congruence);
    try (intros [soap H]; discriminate H).
  intros _. repeat split; discriminate.
Qed.

Lemma envelope_some req soap :
  envelope_of cfg req = Some soap -> envelope cfg req = soap.
Proof. unfold envelope. now intros ->. Qed.

Lemma attempt_outcome_some req soap k :
  envelope_of cfg req = Some soap ->
  attempt_outcome cfg env req k = callTlo_promise (upstream env k soap).
Proof. unfold attempt_outcome. now intros ->. Qed.

(** A call that settles is a call that was made, with the envelope. *)
Lemma attempt_outcome_settled req k :
  attempt_outcome cfg env req k <> Pending ->
  exists soap,
    envelope_of cfg req = Some soap
    /\ envelope cfg req = soap
    /\ attempt_outcome cfg env req k = callTlo_promise (upstream env k soap).
Proof.
  unfold attempt_outcome, envelope.
  destruct (envelope_of cfg req) as [soap|]; [|congruence].
  intros _. exists soap. auto.
Qed.

(** *** The ways an attempt fails *)

Lemma failure_of_rejected soap k err :
  callTlo_promise (upstream env k soap) = Rejected err ->
  attempt_failure parse env soap k = Some err.
Proof. unfold attempt_failure. now intros ->. Qed.

Lemma failure_of_unparsed soap k x err :
  callTlo_promise (upstream env k soap) = Resolved x ->
  parse (raw x) = inr err ->
  attempt_failure parse env soap k = Some err.
Proof. unfold attempt_failure. now intros -> ->. Qed.

Lemma failure_of_unconverted soap k x parsed :
  callTlo_promise (upstream env k soap) = Resolved x ->
  parse (raw x) = inl parsed ->
  classify x parsed = None ->
  attempt_failure parse env soap k = Some cannot_convert.
Proof. unfold attempt_failure. now intros -> -> ->. Qed.

(** An attempt stays pending, or is answered, or fails. *)
Lemma attempt_cases soap k :
  callTlo_promise (upstream env k soap) = Pending
  \/ (exists x parsed r,
        callTlo_promise (upstream env k soap) = Resolved x
        /\ parse (raw x) = inl parsed
        /\ classify x parsed = Some r)
  \/ (exists err, attempt_failure parse env soap k = Some err).
Proof.
  unfold attempt_failure.
  destruct (callTlo_promise (upstream env k soap)) as [|x|err];
    [now left | | right; right; eauto].
  destruct (parse (raw x)) as [parsed|err] eqn:He; [|right; right; eauto].
  destruct (classify x parsed) as [r|] eqn:Hc; right;
    [left; exists x, parsed, r; repeat split; assumption | right; eauto].
Qed.

(** *** One iteration of the loop *)

Lemma catch_eq attempt err k t :
  catch cfg env attempt err k t
  = let t' := t ++ [warn_entry env (length t) attempt err] in
    if RETRIES cfg <? attempt then (Responded timeout_response, t') else k t'.
Proof.
  unfold catch, bind, log, ret, warn_entry. simpl.
  destruct (RETRIES cfg <? attempt); reflexivity.
Qed.

Lemma attempts_pending fuel soap attempt t :
  attempt <= RETRIES cfg + 1 ->
  callTlo_promise (upstream env (calls t) soap) = Pending ->
  attempts cfg parse env (S fuel) soap attempt t = (Awaiting, t ++ [ECall soap]).
Proof.
  intros Ha Hp. apply Nat.leb_le in Ha. simpl. rewrite Ha.
  unfold bind, callTlo. now rewrite Hp.
Qed.

Lemma attempts_classified fuel soap attempt t x parsed r :
  attempt <= RETRIES cfg + 1 ->
  callTlo_promise (upstream env (calls t) soap) = Resolved x ->
  parse (raw x) = inl parsed ->
  classify x parsed = Some r ->
  attempts cfg parse env (S fuel) soap attempt t = (Responded r, t ++ [ECall soap]).
Proof.
  intros Ha Hp He Hc. apply Nat.leb_le in Ha. simpl. rewrite Ha.
  unfold bind, callTlo. now rewrite Hp, He, Hc.
Qed.

Lemma attempts_failed fuel soap attempt t err :
  attempt <= RETRIES cfg + 1 ->
  attempt_failure parse env soap (calls t) = Some err ->
  attempts cfg parse env (S fuel) soap attempt t
  = catch cfg env attempt err (attempts cfg parse env fuel soap (attempt + 1))
      (t ++ [ECall soap]).
Proof.
  intros Ha Hf. apply Nat.leb_le in Ha. simpl. rewrite Ha.
  unfold bind, callTlo. unfold attempt_failure in Hf.
  destruct (callTlo_promise (upstream env (calls t) soap)) as [|x|e];
    [discriminate Hf | | now injection Hf as ->].
  destruct (parse (raw x)) as [parsed|e]; [|now injection Hf as ->].
  destruct (classify x parsed); [discriminate Hf | now injection Hf as <-].
Qed.

(** What holds of the result of the loop when it holds of every way one
    iteration can end. *)
Lemma attempts_ind
  (P : nat -> list (Effect num) -> Outcome num * list (Effect num) -> Prop) soap :
  (forall attempt t, P attempt t (OutOfFuel, t)) ->
  (forall attempt t, RETRIES cfg + 1 < attempt -> P attempt t (Unanswered, t)) ->
  (forall attempt t, attempt <= RETRIES cfg + 1 ->
      callTlo_promise (upstream env (calls t) soap) = Pending ->
      P attempt t (Awaiting, t ++ [ECall soap])) ->
  (forall attempt t x parsed r, attempt <= RETRIES cfg + 1 ->
      callTlo_promise (upstream env (calls t) soap) = Resolved x ->
      parse (raw x) = inl parsed ->
      classify x parsed = Some r ->
      P attempt t (Responded r, t ++ [ECall soap])) ->
  (forall attempt t err, attempt = RETRIES cfg + 1 ->
      attempt_failure parse env soap (calls t) = Some err ->
      P attempt t (Responded timeout_response,
                   (t ++ [ECall soap])
                   ++ [warn_entry env (length (t ++ [ECall soap])) attempt err])) ->
  (forall attempt t err o, attempt <= RETRIES cfg ->
      attempt_failure parse env soap (calls t) = Some err ->
      P (attempt + 1)
        ((t ++ [ECall soap])
         ++ [warn_entry env (length (t ++ [ECall soap])) attempt err]) o ->
      P attempt t o) ->
  forall fuel attempt t, P attempt t (attempts cfg parse env fuel soap attempt t).
Proof.
  intros Hfuel Hun Haw Hok Hlast Hnext.
  induction fuel as [|fuel IH]; intros attempt t; [apply Hfuel|].
  destruct (Nat.leb_spec attempt (RETRIES cfg + 1)) as [Ha|Ha].
  - destruct (attempt_cases soap (calls t))
      as [Hp | [(x & parsed & r & Hp & He & Hc) | [err Hf]]].
    + rewrite attempts_pending by assumption. now apply Haw.
    + rewrite (attempts_classified _ _ _ _ _ _ _ Ha Hp He Hc). eapply Hok; eassumption.
    + rewrite (attempts_failed _ _ _ _ _ Ha Hf), catch_eq. cbv zeta.
      destruct (Nat.ltb_spec (RETRIES cfg) attempt);
        [apply Hlast; [lia | exact Hf]|].
      eapply Hnext; [assumption | exact Hf |]. apply IH.
  - simpl. pose proof Ha as Ha'. apply Nat.leb_gt in Ha. rewrite Ha.
    now apply Hun.
Qed.

(** The loop only ever adds to the trace. *)
Lemma attempts_extends fuel soap : forall attempt t,
  exists t', snd (attempts cfg parse env fuel soap attempt t) = t ++ t'.
Proof.
  apply (attempts_ind (fun _ t o => exists t', snd o = t ++ t'));
    cbn [snd].
  - intros _ t. exists []. now rewrite app_nil_r.
  - intros _ t _. exists []. now rewrite app_nil_r.
  - intros _ t _ _. eexists; reflexivity.
  - intros attempt t x parsed r _ _ _ _. eexists; reflexivity.
  - intros attempt t err _ _. eexists. rewrite <- app_assoc. reflexivity.
  - intros attempt t err o _ _ [t' Ht']. rewrite Ht'.
    eexists. rewrite <- !app_assoc. reflexivity.
Qed.

(** The loop never runs out of iterations: the last one answers. *)
Lemma attempts_total fuel : forall soap attempt t,
  0 < fuel ->
  RETRIES cfg + 2 <= attempt + fuel ->
  fst (attempts cfg parse env fuel soap attempt t) <> OutOfFuel.
Proof.
  induction fuel as [|fuel IH]; intros soap attempt t Hpos Hf; [lia|].
  destruct (Nat.leb_spec attempt (RETRIES cfg + 1)) as [Ha|Ha].
  - destruct (attempt_cases soap (calls t))
      as [Hp | [(x & parsed & r & Hp & He & Hc) | [err Hfail]]].
    + rewrite attempts_pending by assumption. discriminate.
    + rewrite (attempts_classified _ _ _ _ _ _ _ Ha Hp He Hc). discriminate.
    + rewrite (attempts_failed _ _ _ _ _ Ha Hfail), catch_eq. cbv zeta.
      destruct (Nat.ltb_spec (RETRIES cfg) attempt); [discriminate|].
      apply IH; lia.
  - simpl. apply Nat.leb_gt in Ha. rewrite Ha. discriminate.
Qed.

(** Started within its bounds, the loop ends in a response or suspended
    on a call that never settles. *)
Lemma attempts_answers fuel : forall soap attempt t,
  attempt <= RETRIES cfg + 1 ->
  RETRIES cfg + 2 <= attempt + fuel ->
  (exists r, fst (attempts cfg parse env fuel soap attempt t) = Responded r)
  \/ fst (attempts cfg parse env fuel soap attempt t) = Awaiting.
Proof.
  induction fuel as [|fuel IH]; intros soap attempt t Ha Hf; [lia|].
  destruct (attempt_cases soap (calls t))
    as [Hp | [(x & parsed & r & Hp & He & Hc) | [err Hfail]]].
  - rewrite attempts_pending by assumption. now right.
  - rewrite (attempts_classified _ _ _ _ _ _ _ Ha Hp He Hc).
    left; eexists; reflexivity.
  - rewrite (attempts_failed _ _ _ _ _ Ha Hfail), catch_eq. cbv zeta.
    destruct (Nat.ltb_spec (RETRIES cfg) attempt); [left; eexists; reflexivity|].
    apply IH; lia.
Qed.

(** An iteration within bounds starts with an outbound call. *)
Lemma attempts_call_first fuel soap attempt t :
  attempt <= RETRIES cfg + 1 ->
  exists t',
    snd (attempts cfg parse env (S fuel) soap attempt t) = t ++ ECall soap :: t'.
Proof.
  intros Ha.
  destruct (attempt_cases soap (calls t))
    as [Hp | [(x & parsed & r & Hp & He & Hc) | [err Hfail]]].
  - rewrite attempts_pending by assumption. exists []. reflexivity.
  - rewrite (attempts_classified _ _ _ _ _ _ _ Ha Hp He Hc). exists []. reflexivity.
  - rewrite (attempts_failed _ _ _ _ _ Ha Hfail), catch_eq. cbv zeta.
    destruct (RETRIES cfg <? attempt).
    + eexists. cbn [snd]. rewrite <- app_assoc. reflexivity.
    + edestruct attempts_extends as [t' Ht']. rewrite Ht'.
      eexists. rewrite <- !app_assoc. reflexivity.
Qed.

(** After [k] failed attempts that leave a retry, the loop stands at
    attempt [attempt + k] with [k] more calls and [k] more log entries,
    one after each call. *)
Lemma attempts_after_failures soap k : forall fuel attempt t,
  (forall j, j < k -> caught parse env soap (calls t + j)) ->
  attempt + k <= RETRIES cfg + 1 ->
  exists t',
    attempts cfg parse env (k + fuel) soap attempt t
    = attempts cfg parse env fuel soap (attempt + k) t'
    /\ calls t' = calls t + k
    /\ length (logged t') = length (logged t) + k
    /\ length t' = length t + 2 * k.
Proof.
  induction k as [|k IH]; intros fuel attempt t Hc Ha.
  - exists t. rewrite !Nat.add_0_r. auto.
  - assert (Hstep : exists err,
      attempts cfg parse env (S k + fuel) soap attempt t
      = attempts cfg parse env (k + fuel) soap (attempt + 1)
          ((t ++ [ECall soap])
           ++ [warn_entry env (length (t ++ [ECall soap])) attempt err])).
    { assert (Hle : attempt <= RETRIES cfg + 1) by lia.
      assert (Hlt : (RETRIES cfg <? attempt) = false) by (apply Nat.ltb_ge; lia).
      specialize (Hc 0 ltac:(lia)). rewrite Nat.add_0_r in Hc.
      destruct Hc as [err Hf]; exists err; cbn [Nat.add].
      rewrite (attempts_failed _ _ _ _ _ Hle Hf), catch_eq.
      cbv zeta. now rewrite Hlt. }
    destruct Hstep as [err Hstep].
    destruct (IH fuel (attempt + 1)
                ((t ++ [ECall soap])
                 ++ [warn_entry env (length (t ++ [ECall soap])) attempt err]))
      as (t' & Heq & Hcalls & Hlogs & Hlen).
    + intros j Hj. rewrite !calls_app. cbn.
      replace (calls t + 1 + 0 + j) with (calls t + S j) by lia.
      apply Hc. lia.
    + lia.
    + exists t'. rewrite Hstep, Heq.
      replace (attempt + 1 + k) with (attempt + S k) by lia.
      split; [reflexivity|].
      rewrite Hcalls, Hlogs, Hlen, !calls_app, !logged_app, !length_app.
      cbn. lia.
Qed.

(** *** The stages of the handler *)

Lemma serve_unauthorized req :
  x_shared_secret req <> SHARED_SECRET cfg ->
  serve cfg parse env req = (Responded unauthorized_response, []).
Proof.
  intros H. unfold serve, handler.
  destruct (opt_jstr_eqb_spec (x_shared_secret req) (SHARED_SECRET cfg));
    [contradiction | reflexivity].
Qed.

Lemma serve_invalid req :
  authenticated cfg req ->
  truthy (field_of req "firstName") = false
  \/ truthy (field_of req "lastName") = false
  \/ truthy (field_of req "ssn") = false ->
  serve cfg parse env req = (Responded invalid_input_response, []).
Proof.
  intros Hauth H. unfold serve, handler. rewrite Hauth.
  destruct (opt_jstr_eqb_spec (SHARED_SECRET cfg) (SHARED_SECRET cfg));
    [|congruence].
  cbn [negb]. fold (field_of req "firstName") (field_of req "lastName")
                   (field_of req "ssn").
  destruct H as [H|[H|H]]; rewrite H; cbn [negb orb];
    rewrite ?orb_true_r; reflexivity.
Qed.

(** A validated request for which [buildSoap] returns enters the loop. *)
Lemma serve_validated req soap :
  authenticated cfg req -> validated req ->
  envelope_of cfg req = Some soap ->
  serve cfg parse env req = attempts cfg parse env (RETRIES cfg + 1) soap 1 [].
Proof.
  intros Hauth (Hf & Hl & Hs) Hsoap. unfold serve, handler. rewrite Hauth.
  destruct (opt_jstr_eqb_spec (SHARED_SECRET cfg) (SHARED_SECRET cfg));
    [|congruence].
  cbn [negb]. fold (field_of req "firstName") (field_of req "lastName")
                   (field_of req "ssn").
  rewrite Hf, Hl, Hs. cbn [negb orb].
  unfold envelope_of in Hsoap. now rewrite Hsoap.
Qed.

(** A validated request for which [buildSoap] throws is left without a
    call and without a response. *)
Lemma serve_thrown req :
  authenticated cfg req -> validated req ->
  envelope_of cfg req = None ->
  serve cfg parse env req = (Thrown, []).
Proof.
  intros Hauth (Hf & Hl & Hs) Hsoap. unfold serve, handler. rewrite Hauth.
  destruct (opt_jstr_eqb_spec (SHARED_SECRET cfg) (SHARED_SECRET cfg));
    [|congruence].
  cbn [negb]. fold (field_of req "firstName") (field_of req "lastName")
                   (field_of req "ssn").
  rewrite Hf, Hl, Hs. cbn [negb orb].
  unfold envelope_of in Hsoap. now rewrite Hsoap.
Qed.

(** The four ways through the handler. *)
Lemma serve_cases req :
  serve cfg parse env req = (Responded unauthorized_response, [])
  \/ serve cfg parse env req = (Responded invalid_input_response, [])
  \/ (envelope_of cfg req = None /\ serve cfg parse env req = (Thrown, []))
  \/ (exists soap,
        envelope_of cfg req = Some soap
        /\ serve cfg parse env req
           = attempts cfg parse env (RETRIES cfg + 1) soap 1 []).
Proof.
  destruct (opt_jstr_eqb_spec (x_shared_secret req) (SHARED_SECRET cfg))
    as [Hauth|Hauth]; [|left; now apply serve_unauthorized].
  right.
  destruct (truthy (field_of req "firstName")) eqn:Hf;
    [|left; apply serve_invalid; auto].
  destruct (truthy (field_of req "lastName")) eqn:Hl;
    [|left; apply serve_invalid; auto].
  destruct (truthy (field_of req "ssn")) eqn:Hs;
    [|left; apply serve_invalid; auto].
  right.
  destruct (envelope_of cfg req) as [soap|] eqn:Hsoap.
  - right. exists soap. split; [reflexivity|].
    apply serve_validated; [assumption | repeat split; assumption | assumption].
  - left. split; [reflexivity|].
    apply serve_thrown; [assumption | repeat split; assumption | assumption].
Qed.

(** A validated request with an envelope reaches the upstream: its trace
    starts with the call that carries the envelope. *)
Lemma serve_validated_calls req soap :
  authenticated cfg req -> validated req ->
  envelope_of cfg req = Some soap ->
  exists t, snd (serve cfg parse env req) = ECall soap :: t.
Proof.
  intros Hauth Hval Hsoap. rewrite (serve_validated req soap) by assumption.
  replace (RETRIES cfg + 1) with (S (RETRIES cfg)) by lia.
  apply (attempts_call_first (RETRIES cfg) soap 1 []). lia.
Qed.

(** After [k] failed attempts within the retry budget, the handler stands
    at attempt [k + 1]. *)
Lemma serve_after_failures req soap k :
  authenticated cfg req -> validated req ->
  envelope_of cfg req = Some soap ->
  k <= RETRIES cfg ->
  (forall j, j < k -> caught parse env soap j) ->
  exists t,
    serve cfg parse env req
    = attempts cfg parse env (S (RETRIES cfg - k)) soap (1 + k) t
    /\ calls t = k
    /\ length (logged t) = k
    /\ length t = 2 * k.
Proof.
  intros Hauth Hval Hsoap Hk Hc.
  rewrite (serve_validated req soap) by assumption.
  replace (RETRIES cfg + 1) with (k + S (RETRIES cfg - k)) by lia.
  destruct (attempts_after_failures soap k (S (RETRIES cfg - k)) 1 [])
    as (t' & Heq & Hcalls & Hlogs & Hlen); [exact Hc | lia |].
  exists t'. cbn in Hcalls, Hlogs, Hlen. rewrite Heq.
  repeat split; trivial; lia.
Qed.

(** When the exchange of attempt [k + 1] is classified, the handler
    answers with that classification after [k + 1] calls and [k] log
    entries. *)
Lemma serve_answers_on_attempt req k x parsed r :
  authenticated cfg req -> validated req ->
  k <= RETRIES cfg ->
  (forall j, j < k -> caught parse env (envelope cfg req) j) ->
  attempt_outcome cfg env req k = Resolved x ->
  parse (raw x) = inl parsed ->
  classify x parsed = Some r ->
  fst (serve cfg parse env req) = Responded r
  /\ calls (snd (serve cfg parse env req)) = k + 1
  /\ length (logged (snd (serve cfg parse env req))) = k.
Proof.
  intros Hauth Hval Hk Hc Hp He Hr.
  destruct (attempt_outcome_settled req k) as (soap & Hsoap & Henv & Hout);
    [rewrite Hp; discriminate|].
  rewrite Henv in Hc. rewrite Hout in Hp.
  destruct (serve_after_failures req soap k Hauth Hval Hsoap Hk Hc)
    as (t & Heq & Hcalls & Hlogs & _).
  rewrite Heq.
  rewrite (attempts_classified _ soap (1 + k) t x parsed r);
    [| lia | now rewrite Hcalls | exact He | exact Hr].
  cbn [fst snd]. rewrite calls_app, logged_app, Hcalls, Hlogs. cbn.
  repeat split; lia.
Qed.

(** When attempt [k + 1] fails, the failure is logged after the call, at
    position [2k + 1] of the trace, with the attempt number and the
    error; with a retry left the envelope is sent again, and without one
    the answer is 504. *)
Lemma serve_attempt_caught req k err :
  authenticated cfg req -> validated req ->
  convertible req ->
  k <= RETRIES cfg ->
  (forall j, j < k -> caught parse env (envelope cfg req) j) ->
  attempt_failure parse env (envelope cfg req) k = Some err ->
  nth_error (logged (snd (serve cfg parse env req))) k
  = Some (warn_entry env (2 * k + 1) (k + 1) err)
  /\ (k < RETRIES cfg -> k + 2 <= calls (snd (serve cfg parse env req)))
  /\ (k = RETRIES cfg ->
      fst (serve cfg parse env req) = Responded gateway_timeout_response
      /\ calls (snd (serve cfg parse env req)) = k + 1).
Proof.
  intros Hauth Hval Hconv Hk Hc Hf.
  apply envelope_of_convertible in Hconv as [soap Hsoap].
  rewrite (envelope_some req soap Hsoap) in Hc, Hf.
  destruct (serve_after_failures req soap k Hauth Hval Hsoap Hk Hc)
    as (t & Heq & Hcalls & Hlogs & Hlen).
  rewrite Heq. rewrite <- Hcalls in Hf.
  rewrite (attempts_failed _ soap (1 + k) t err) by (trivial; lia).
  rewrite catch_eq. cbv zeta.
  assert (Hentry : warn_entry env (length (t ++ [ECall soap])) (1 + k) err
                   = warn_entry env (2 * k + 1) (k + 1) err).
  { rewrite length_app, Hlen. cbn [length]. f_equal; lia. }
  rewrite Hentry.
  assert (Hnth : forall t',
             nth_error
               (logged (((t ++ [ECall soap])
                         ++ [warn_entry env (2 * k + 1) (k + 1) err]) ++ t')) k
             = Some (warn_entry env (2 * k + 1) (k + 1) err)).
  { intros t'. unfold logged. rewrite filter_app. fold (logged t').
    change (filter is_log ((t ++ [ECall soap])
                           ++ [warn_entry env (2 * k + 1) (k + 1) err]))
      with (logged ((t ++ [ECall soap])
                    ++ [warn_entry env (2 * k + 1) (k + 1) err])).
    rewrite logged_warn, logged_call.
    rewrite nth_error_app1 by (rewrite length_app, Hlogs; cbn; lia).
    rewrite nth_error_app2 by lia.
    rewrite Hlogs, Nat.sub_diag. reflexivity. }
  destruct (Nat.ltb_spec (RETRIES cfg) (1 + k)) as [Hlast|Hmore].
  - cbn [fst snd]. split; [|split].
    + specialize (Hnth []). now rewrite app_nil_r in Hnth.
    + intros Hlt. lia.
    + intros _. split; [reflexivity|].
      rewrite !calls_app, Hcalls. cbn. lia.
  - assert (Hfuel : RETRIES cfg - k = S (RETRIES cfg - k - 1)) by lia.
    rewrite Hfuel.
    destruct (attempts_call_first (RETRIES cfg - k - 1) soap (1 + k + 1)
                ((t ++ [ECall soap]) ++ [warn_entry env (2 * k + 1) (k + 1) err]))
      as [t' Ht']; [lia|].
    rewrite Ht'. split; [apply Hnth | split; [|intros Hlast; lia]].
    intros _. rewrite calls_concat, !calls_app, Hcalls. cbn. lia.
Qed.

(** Every request ends in a response, suspended on a call that never
    settles, or thrown out of the handler before the loop; the loop
    neither runs out of iterations nor falls through. *)
Lemma serve_answers req :
  (exists r, fst (serve cfg parse env req) = Responded r)
  \/ fst (serve cfg parse env req) = Awaiting
  \/ (envelope_of cfg req = None /\ serve cfg parse env req = (Thrown, [])).
Proof.
  destruct (serve_cases req) as [H | [H | [H | (soap & Hsoap & H)]]].
  - left. rewrite H. eexists; reflexivity.
  - left. rewrite H. eexists; reflexivity.
  - right; right. exact H.
  - rewrite H.
    destruct (attempts_answers (RETRIES cfg + 1) soap 1 []) as [Hr|Ha];
      [lia | lia | now left | now right; left].
Qed.

(** C6: a request whose x-shared-secret header differs from the configured
    secret (a missing header is [None]) is answered 401 UNAUTHORIZED and
    leaves an empty trace: no envelope is built, no field is validated and
    no outbound call is made. *)
Theorem unauthorized_rejected_without_outbound_call req :
  x_shared_secret req <> SHARED_SECRET cfg ->
  serve cfg parse env req = (Responded unauthorized_response, [])
  /\ calls (snd (serve cfg parse env req)) = 0.
Proof.
  intros H. rewrite (serve_unauthorized _ H). split; reflexivity.
Qed.

Lemma truthy_string s : truthy (JStr s : jsval num) = false <-> s = [].
Proof. destruct s; simpl; split; congruence. Qed.

(** C7, amended: for an authenticated request the handler answers 400
    INVALID_INPUT, with no outbound call, exactly when one of firstName,
    lastName, ssn is falsy (absent, null, false, 0, NaN or the empty
    string).  A truthy value that is not a string is not rejected. *)
Theorem falsy_field_rejected_as_invalid_input req :
  authenticated cfg req ->
  (truthy (field_of req "firstName") = false
   \/ truthy (field_of req "lastName") = false
   \/ truthy (field_of req "ssn") = false)
  <-> serve cfg parse env req = (Responded invalid_input_response, []).
Proof.
  intros Hauth. split; [now apply serve_invalid|].
  intros Hs.
  destruct (truthy (field_of req "firstName")) eqn:Hf; [|now left].
  destruct (truthy (field_of req "lastName")) eqn:Hl; [|now right; left].
  destruct (truthy (field_of req "ssn")) eqn:Hn; [|now right; right].
  exfalso.
  assert (Hval : validated req) by (repeat split; assumption).
  destruct (envelope_of cfg req) as [soap|] eqn:Hsoap.
  - destruct (serve_validated_calls req soap Hauth Hval Hsoap) as [t Ht].
    rewrite Hs in Ht. discriminate.
  - rewrite (serve_thrown req Hauth Hval Hsoap) in Hs. discriminate.
Qed.

End HandlerProperties.

Section Classification.
Context {num : Type} {JN : JsNum num}.
Variable cfg : Config.
Variable parse : jstr -> jsval num + JsError.
Variable env : Environment.

Lemma not_string_zero_spec (v : jsval num) :
  not_string_zero v = true <-> v <> JStr (lit "0").
Proof.
  destruct v; simpl; try (split; [discriminate | reflexivity]).
  destruct (jstr_eqb_spec s (lit "0")) as [->|Hne]; simpl; split;
    congruence.
Qed.

(** The three branches of the classification. *)
Lemma classify_absent x parsed :
  truthy (result_node parsed) = false ->
  classify x parsed
  = Some (json 502 [(lit "ok", JBool false);
                    (lit "error", JStr (lit "SOAP_PARSE_FAILED"));
                    (lit "rawStart", JStr (slice0 500 (raw x)))]
          : Response num).
Proof. intros Hr. unfold classify. now rewrite Hr. Qed.

Lemma classify_business_error x parsed :
  truthy (result_node parsed) = true ->
  truthy (get (result_node parsed) (lit "ErrorCode")) = true ->
  get (result_node parsed) (lit "ErrorCode") <> JStr (lit "0") ->
  classify x parsed
  = Some (business_error_response
            (get (result_node parsed) (lit "ErrorCode"))
            (get (result_node parsed) (lit "ErrorMessage"))).
Proof.
  intros Hr Hc Hz. unfold classify. rewrite Hr, Hc.
  apply not_string_zero_spec in Hz. rewrite Hz. reflexivity.
Qed.

Lemma classify_success x parsed :
  truthy (result_node parsed) = true ->
  (truthy (get (result_node parsed) (lit "ErrorCode")) = false
   \/ get (result_node parsed) (lit "ErrorCode") = JStr (lit "0")) ->
  classify x parsed
  = option_map (success_response (result_node parsed))
      (ToNumber (get (result_node parsed) (lit "NumberOfRecordsFound"))).
Proof.
  intros Hr Hc. unfold classify. rewrite Hr. cbn [negb].
  replace (truthy (get (result_node parsed) (lit "ErrorCode"))
           && not_string_zero (get (result_node parsed) (lit "ErrorCode")))
    with false.
  - destruct (ToNumber (get (result_node parsed) (lit "NumberOfRecordsFound")));
      reflexivity.
  - destruct Hc as [Hc|Hc]; rewrite Hc;
      [reflexivity | now rewrite andb_false_r].
Qed.

(** Without a result node the answer is 502 with the first 500 code
    units of the body. *)
Lemma absent_result_node_502 req x parsed :
  authenticated cfg req -> validated req ->
  attempt_outcome cfg env req 0 = Resolved x ->
  parse (raw x) = inl parsed ->
  truthy (result_node parsed) = false ->
  fst (serve cfg parse env req)
  = Responded (json 502 [(lit "ok", JBool false);
                         (lit "error", JStr (lit "SOAP_PARSE_FAILED"));
                         (lit "rawStart", JStr (slice0 500 (raw x)))])
  /\ calls (snd (serve cfg parse env req)) = 1
  /\ length (slice0 500 (raw x)) <= 500.
Proof.
  intros Hauth Hval Hp He Hr.
  destruct (serve_answers_on_attempt cfg parse env req 0 x parsed _
              Hauth Hval (Nat.le_0_l _) ltac:(intros j Hj; lia) Hp He
              (classify_absent x parsed Hr))
    as (Hfst & Hcalls & _).
  split; [exact Hfst | split; [exact Hcalls|]].
  unfold slice0. apply firstn_le_length.
Qed.

(** C4, amended: when a result node is parsed, on the first attempt or
    on a retry, and its ErrorCode is truthy and is not the string "0",
    the answer is 200 with ok:false, tloError:true and the ErrorCode and
    ErrorMessage of the result node as they were parsed. *)
Theorem business_error_passed_through req k x parsed :
  authenticated cfg req -> validated req ->
  k <= RETRIES cfg ->
  (forall j, j < k -> caught parse env (envelope cfg req) j) ->
  attempt_outcome cfg env req k = Resolved x ->
  parse (raw x) = inl parsed ->
  truthy (result_node parsed) = true ->
  truthy (get (result_node parsed) (lit "ErrorCode")) = true ->
  get (result_node parsed) (lit "ErrorCode") <> JStr (lit "0") ->
  fst (serve cfg parse env req)
  = Responded
      {| status := 200;
         body := JObj [(lit "ok", JBool false);
                       (lit "tloError", JBool true);
                       (lit "errorCode",
                        get (result_node parsed) (lit "ErrorCode"));
                       (lit "errorMessage",
                        get (result_node parsed) (lit "ErrorMessage"))] |}
  /\ calls (snd (serve cfg parse env req)) = k + 1.
Proof.
  intros Hauth Hval Hk Hprev Hp He Hr Hc Hz.
  destruct (serve_answers_on_attempt cfg parse env req k x parsed _
              Hauth Hval Hk Hprev Hp He
              (classify_business_error x parsed Hr Hc Hz))
    as (Hfst & Hcalls & _).
  split; [exact Hfst | exact Hcalls].
Qed.

(** A NaN count is written as null. *)
Lemma success_body_text (result : jsval num) :
  body_text (success_response result NaN)
  = lit "{" ++
    join (lit ",")
      (member "ok" (JBool true)
       ++ member "transactionId" (get result (lit "TransactionId"))
       ++ [quote (lit "recordsFound") ++ lit ":null"]
       ++ member "data" result)
    ++ lit "}".
Proof.
  unfold body_text, success_response, member. cbn [body stringify].
  rewrite NaN_not_finite.
  destruct (stringify (get result (lit "TransactionId")));
    destruct (stringify result); reflexivity.
Qed.

(** C10: when a result node is parsed, on the first attempt or on a
    retry, and its ErrorCode is falsy or the string "0", then
    - if Number(NumberOfRecordsFound) returns, the answer is 200 with
      ok:true and that number as recordsFound; it returns NaN for a
      missing field and the number of the string for a string, numeric or
      not; and a NaN is written as null in the body;
    - if Number(NumberOfRecordsFound) throws (the node is an object with
      an own property toString, an object without prototype, or an array
      that holds one), there is no 200: the attempt is logged as failed
      with the TypeError, and the envelope is sent again or, on the last
      attempt, the answer is 504. *)
Theorem success_with_unreadable_count req k x parsed :
  authenticated cfg req -> validated req ->
  k <= RETRIES cfg ->
  (forall j, j < k -> caught parse env (envelope cfg req) j) ->
  attempt_outcome cfg env req k = Resolved x ->
  parse (raw x) = inl parsed ->
  truthy (result_node parsed) = true ->
  (truthy (get (result_node parsed) (lit "ErrorCode")) = false
   \/ get (result_node parsed) (lit "ErrorCode") = JStr (lit "0")) ->
  let result := result_node parsed in
  let field := get result (lit "NumberOfRecordsFound") in
  (forall count, ToNumber field = Some count ->
     fst (serve cfg parse env req)
     = Responded
         {| status := 200;
            body := JObj [(lit "ok", JBool true);
                          (lit "transactionId", get result (lit "TransactionId"));
                          (lit "recordsFound", JNum count);
                          (lit "data", result)] |}
     /\ calls (snd (serve cfg parse env req)) = k + 1)
  /\ (field = JUndefined -> ToNumber field = Some NaN)
  /\ (forall s, field = JStr s -> ToNumber field = Some (string_to_num s))
  /\ body_text (success_response result NaN)
     = lit "{" ++
       join (lit ",")
         (member "ok" (JBool true)
          ++ member "transactionId" (get result (lit "TransactionId"))
          ++ [quote (lit "recordsFound") ++ lit ":null"]
          ++ member "data" result)
       ++ lit "}"
  /\ (ToNumber field = None ->
      nth_error (logged (snd (serve cfg parse env req))) k
      = Some (warn_entry env (2 * k + 1) (k + 1) cannot_convert)
      /\ (k < RETRIES cfg -> k + 2 <= calls (snd (serve cfg parse env req)))
      /\ (k = RETRIES cfg ->
          fst (serve cfg parse env req) = Responded gateway_timeout_response
          /\ calls (snd (serve cfg parse env req)) = k + 1)).
Proof.
  intros Hauth Hval Hk Hprev Hp He Hr Hc result field.
  pose proof (classify_success x parsed Hr Hc) as Hclass.
  fold result field in Hclass.
  split; [|split; [|split; [|split]]].
  - intros count Hn. rewrite Hn in Hclass.
    destruct (serve_answers_on_attempt cfg parse env req k x parsed _
                Hauth Hval Hk Hprev Hp He Hclass) as (Hfst & Hcalls & _).
    split; [exact Hfst | exact Hcalls].
  - intros ->. reflexivity.
  - intros s ->. reflexivity.
  - apply success_body_text.
  - intros Hn. rewrite Hn in Hclass.
    destruct (attempt_outcome_settled cfg env req k)
      as (soap & Hsoap & Henv & Hout); [rewrite Hp; discriminate|].
    apply (serve_attempt_caught cfg parse env req k cannot_convert);
      try assumption.
    + apply (envelope_of_convertible cfg). eauto.
    + rewrite Henv. rewrite Hout in Hp.
      exact (failure_of_unconverted parse env soap k x parsed Hp He Hclass).
Qed.

End Classification.

(** ** Retries *)

Section Retries.
Context {num : Type} {JN : JsNum num}.
Variable parse : jstr -> jsval num + JsError.
Variable env : Environment.

(** When every attempt is caught, the loop makes all the calls its budget
    allows and answers 504. *)
Lemma attempts_exhausted cfg soap fuel : forall attempt t,
  attempt <= RETRIES cfg + 1 ->
  RETRIES cfg + 2 <= attempt + fuel ->
  (forall k, caught parse env soap k) ->
  fst (attempts cfg parse env fuel soap attempt t) = Responded timeout_response
  /\ calls (snd (attempts cfg parse env fuel soap attempt t))
     = calls t + (RETRIES cfg + 2 - attempt).
Proof.
  induction fuel as [|fuel IH]; intros attempt t Ha Hf Hall; [lia|].
  destruct (Hall (calls t)) as [err Hfail].
  rewrite (attempts_failed cfg parse env fuel soap attempt t err Ha Hfail).
  rewrite catch_eq. cbv zeta.
  destruct (Nat.ltb_spec (RETRIES cfg) attempt) as [Hlast|Hmore].
  - split; [reflexivity|]. cbn [snd]. rewrite !calls_app. simpl. lia.
  - destruct (IH (attempt + 1)
                ((t ++ [ECall soap])
                 ++ [warn_entry env (length (t ++ [ECall soap])) attempt err]))
      as [Hr Hc]; [lia | lia | assumption |].
    split; [exact Hr|]. rewrite Hc, !calls_app. simpl. lia.
Qed.

(** C5: with the retry budget of CONFIG (two retries), an authenticated
    and validated request whose three attempts are all rejected by the
    transport is answered, once, with HTTP 504 and the body
    {ok:false, error:"TLO_TIMEOUT"}; the trace shows each call followed by
    the log entry of its failure, with the attempt number and the cause,
    before the next call or the answer. *)
Theorem retry_exhaustion_answers_504 penv req e1 e2 e3 :
  authenticated (CONFIG penv) req -> validated req ->
  attempt_outcome (CONFIG penv) env req 0 = Rejected e1 ->
  attempt_outcome (CONFIG penv) env req 1 = Rejected e2 ->
  attempt_outcome (CONFIG penv) env req 2 = Rejected e3 ->
  serve (CONFIG penv) parse env req
  = (Responded
       {| status := 504;
          body := JObj [(lit "ok", JBool false);
                        (lit "error", JStr (lit "TLO_TIMEOUT"))] |},
     [ECall (envelope (CONFIG penv) req); warn_entry env 1 1 e1;
      ECall (envelope (CONFIG penv) req); warn_entry env 3 2 e2;
      ECall (envelope (CONFIG penv) req); warn_entry env 5 3 e3]).
Proof.
  intros Hauth Hval H1 H2 H3.
  destruct (attempt_outcome_settled (CONFIG penv) env req 0)
    as (soap & Hsoap & Henv & _); [rewrite H1; discriminate|].
  rewrite (attempt_outcome_some (CONFIG penv) env req soap 0 Hsoap) in H1.
  rewrite (attempt_outcome_some (CONFIG penv) env req soap 1 Hsoap) in H2.
  rewrite (attempt_outcome_some (CONFIG penv) env req soap 2 Hsoap) in H3.
  rewrite Henv.
  rewrite (serve_validated (CONFIG penv) parse env req soap) by assumption.
  change (RETRIES (CONFIG penv) + 1) with 3.
  rewrite (attempts_failed (CONFIG penv) parse env 2 soap 1 [] e1);
    [| cbn; lia | now apply failure_of_rejected].
  rewrite catch_eq. cbn [app length Nat.ltb Nat.leb RETRIES CONFIG Nat.add].
  rewrite (attempts_failed (CONFIG penv) parse env 1 soap 2 _ e2);
    [| cbn; lia | now apply failure_of_rejected].
  rewrite catch_eq. cbn [app length Nat.ltb Nat.leb RETRIES CONFIG Nat.add].
  rewrite (attempts_failed (CONFIG penv) parse env 0 soap 3 _ e3);
    [| cbn; lia | now apply failure_of_rejected].
  rewrite catch_eq. reflexivity.
Qed.

(** C1, at the failing input: when the first attempt completes but the
    parser rejects its body, the exchange is logged as a failed attempt
    and, with a retry left, the envelope is sent again. *)
Theorem completed_exchange_with_malformed_body_is_retried cfg req x err :
  authenticated cfg req -> validated req ->
  1 <= RETRIES cfg ->
  attempt_outcome cfg env req 0 = Resolved x ->
  parse (raw x) = inr err ->
  exists t,
    snd (serve cfg parse env req)
    = ECall (envelope cfg req) :: warn_entry env 1 1 err
      :: ECall (envelope cfg req) :: t.
Proof.
  intros Hauth Hval Hr Hp He.
  destruct (attempt_outcome_settled cfg env req 0)
    as (soap & Hsoap & Henv & Hout); [rewrite Hp; discriminate|].
  rewrite Hout in Hp. rewrite Henv.
  rewrite (serve_validated cfg parse env req soap) by assumption.
  destruct (RETRIES cfg) as [|n] eqn:HR; [lia|].
  replace (S n + 1) with (S (S n)) by lia.
  rewrite (attempts_failed cfg parse env (S n) soap 1 [] err);
    [| lia | exact (failure_of_unparsed parse env soap 0 x err Hp He)].
  rewrite catch_eq. cbv zeta. rewrite HR. cbn [Nat.ltb Nat.leb app length].
  destruct (attempts_call_first cfg parse env n soap (1 + 1)
              [ECall soap; warn_entry env 1 1 err])
    as [t Ht]; [lia|].
  rewrite Ht. exists t. reflexivity.
Qed.

(** C2, at the failing input: when the body of every completed exchange
    is rejected by the parser, the handler uses up its attempts and
    answers 504 TLO_TIMEOUT; no 502 SOAP_PARSE_FAILED is sent. *)
Theorem malformed_body_answered_504 cfg req :
  authenticated cfg req -> validated req ->
  (forall k, exists x err,
      attempt_outcome cfg env req k = Resolved x /\ parse (raw x) = inr err) ->
  fst (serve cfg parse env req) = Responded timeout_response
  /\ calls (snd (serve cfg parse env req)) = RETRIES cfg + 1.
Proof.
  intros Hauth Hval Hall.
  destruct (attempt_outcome_settled cfg env req 0)
    as (soap & Hsoap & Henv & _).
  { destruct (Hall 0) as (x & err & Hp & _). rewrite Hp. discriminate. }
  rewrite (serve_validated cfg parse env req soap) by assumption.
  destruct (attempts_exhausted cfg soap (RETRIES cfg + 1) 1 [])
    as [Hr Hc]; [lia | lia | | ].
  - intros k. destruct (Hall k) as (x & err & Hp & He).
    rewrite (attempt_outcome_some cfg env req soap k Hsoap) in Hp.
    exists err. exact (failure_of_unparsed parse env soap k x err Hp He).
  - split; [exact Hr|]. rewrite Hc. simpl. lia.
Qed.

(** A 'timeout' event changes nothing: no listener handles it. *)
Lemma timeout_event_ignored events :
  callTlo_promise (events ++ [EvTimeout]) = callTlo_promise events.
Proof. unfold callTlo_promise. rewrite fold_left_app. reflexivity. Qed.

(** C3, at the failing input: when the only event of an attempt is the
    'timeout' of the request, the promise of [callTlo] stays pending; the
    handler stays suspended on it after its one call, with no log entry,
    no retry and no answer.  (The request is one for which the envelope
    is built: [String] returns on its three fields.) *)
Theorem timeout_leaves_attempt_pending cfg req :
  authenticated cfg req -> validated req ->
  convertible req ->
  upstream env 0 (envelope cfg req) = [EvTimeout] ->
  attempt_outcome cfg env req 0 = Pending
  /\ serve cfg parse env req = (Awaiting, [ECall (envelope cfg req)]).
Proof.
  intros Hauth Hval Hconv Hev.
  apply (envelope_of_convertible cfg) in Hconv as [soap Hsoap].
  rewrite (envelope_some cfg req soap Hsoap) in Hev |- *.
  assert (Hp : callTlo_promise (upstream env 0 soap) = Pending).
  { rewrite Hev. reflexivity. }
  split; [now rewrite (attempt_outcome_some cfg env req soap 0 Hsoap)|].
  rewrite (serve_validated cfg parse env req soap) by assumption.
  replace (RETRIES cfg + 1) with (S (RETRIES cfg)) by lia.
  rewrite attempts_pending; [reflexivity | lia | exact Hp].
Qed.

End Retries.

(** ** Where the credentials go *)

Section Confidentiality.
Context {num : Type} {JN : JsNum num}.
Variable parse : jstr -> jsval num + JsError.
Variable events : nat -> list ReqEvent.
Variable clock : nat -> jstr.

Lemma blank_calls (t1 t2 : list (Effect num)) :
  map blank t1 = map blank t2 -> calls t1 = calls t2.
Proof.
  revert t2; induction t1 as [|e1 t1 IH]; intros [|e2 t2] H;
    try discriminate; [reflexivity|].
  injection H as He Ht. unfold calls in *. simpl.
  destruct e1, e2; try discriminate; simpl; auto using f_equal.
Qed.

Lemma blank_length (t1 t2 : list (Effect num)) :
  map blank t1 = map blank t2 -> length t1 = length t2.
Proof.
  intros H. apply (f_equal (@length _)) in H. now rewrite !length_map in H.
Qed.

Lemma blank_snoc (t1 t2 : list (Effect num)) e1 e2 :
  map blank t1 = map blank t2 -> blank e1 = blank e2 ->
  map blank (t1 ++ [e1]) = map blank (t2 ++ [e2]).
Proof. intros Ht He. rewrite !map_app. simpl. now rewrite Ht, He. Qed.

Lemma blank_logged (t1 t2 : list (Effect num)) :
  map blank t1 = map blank t2 -> logged t1 = logged t2.
Proof.
  revert t2. unfold logged.
  induction t1 as [|e1 t1 IH]; intros [|e2 t2] H; try discriminate;
    [reflexivity|].
  injection H as He Ht.
  destruct e1, e2; try discriminate; simpl; auto.
  injection He as ->. f_equal. auto.
Qed.

(** The loop under two configurations with the same retry budget and two
    envelopes: same outcome, same trace up to the bodies of the calls. *)
Lemma attempts_blank cfg1 cfg2 soap1 soap2 fuel : forall attempt t1 t2,
  RETRIES cfg1 = RETRIES cfg2 ->
  map blank t1 = map blank t2 ->
  fst (attempts cfg1 parse (oblivious events clock) fuel soap1 attempt t1)
  = fst (attempts cfg2 parse (oblivious events clock) fuel soap2 attempt t2)
  /\ map blank (snd (attempts cfg1 parse (oblivious events clock) fuel soap1 attempt t1))
     = map blank (snd (attempts cfg2 parse (oblivious events clock) fuel soap2 attempt t2)).
Proof.
  induction fuel as [|fuel IH]; intros attempt t1 t2 HR Ht; [now split|].
  cbn [attempts]. rewrite HR.
  destruct (attempt <=? RETRIES cfg2 + 1); [|now split].
  unfold bind, callTlo. cbn [upstream oblivious].
  rewrite (blank_calls _ _ Ht).
  assert (Ht' : map blank (t1 ++ [ECall soap1]) = map blank (t2 ++ [ECall soap2]))
    by now apply blank_snoc.
  assert (Hcatch : forall err,
    fst (catch cfg1 (oblivious events clock) attempt err
           (attempts cfg1 parse (oblivious events clock) fuel soap1 (attempt + 1))
           (t1 ++ [ECall soap1]))
    = fst (catch cfg2 (oblivious events clock) attempt err
             (attempts cfg2 parse (oblivious events clock) fuel soap2 (attempt + 1))
             (t2 ++ [ECall soap2]))
    /\ map blank (snd (catch cfg1 (oblivious events clock) attempt err
                         (attempts cfg1 parse (oblivious events clock) fuel soap1 (attempt + 1))
                         (t1 ++ [ECall soap1])))
       = map blank (snd (catch cfg2 (oblivious events clock) attempt err
                           (attempts cfg2 parse (oblivious events clock) fuel soap2 (attempt + 1))
                           (t2 ++ [ECall soap2])))).
  { intros err. rewrite !catch_eq. cbv zeta. rewrite HR.
    rewrite (blank_length _ _ Ht').
    destruct (RETRIES cfg2 <? attempt).
    - split; [reflexivity|]. cbn [snd]. now apply blank_snoc.
    - apply IH; [assumption|]. now apply blank_snoc. }
  destruct (callTlo_promise (events (calls t2))) as [|x|err].
  - split; [reflexivity | exact Ht'].
  - destruct (parse (raw x)) as [parsed|err].
    + destruct (classify x parsed) as [r|].
      * split; [reflexivity | exact Ht'].
      * apply Hcatch.
    + apply Hcatch.
  - apply Hcatch.
Qed.

(** C9: what is logged and what is answered does not depend on the
    credentials.  Take two configurations with any upstream usernames,
    passwords and shared secrets (and the same retry budget), and two
    requests with the same body whose headers compare to the secret of
    their configuration with the same result (so both carry the secret of
    their own configuration, or both fail the comparison).  Against an
    upstream whose answers do not depend on what it is sent, the two
    requests get the same response and the same log entries, at the same
    places of the trace; only the bodies of the outbound calls differ.
    So no log entry and no response body is computed from the username,
    the password, the shared secret or the header that carries it. *)
Theorem credentials_do_not_reach_logs_or_responses cfg1 cfg2
  (req1 req2 : Request num) :
  RETRIES cfg1 = RETRIES cfg2 ->
  req_body req1 = req_body req2 ->
  opt_jstr_eqb (x_shared_secret req1) (SHARED_SECRET cfg1)
  = opt_jstr_eqb (x_shared_secret req2) (SHARED_SECRET cfg2) ->
  fst (serve cfg1 parse (oblivious events clock) req1)
  = fst (serve cfg2 parse (oblivious events clock) req2)
  /\ map blank (snd (serve cfg1 parse (oblivious events clock) req1))
     = map blank (snd (serve cfg2 parse (oblivious events clock) req2))
  /\ logged (snd (serve cfg1 parse (oblivious events clock) req1))
     = logged (snd (serve cfg2 parse (oblivious events clock) req2)).
Proof.
  intros HR Hb Hs.
  assert (H : fst (serve cfg1 parse (oblivious events clock) req1)
              = fst (serve cfg2 parse (oblivious events clock) req2)
              /\ map blank (snd (serve cfg1 parse (oblivious events clock) req1))
                 = map blank (snd (serve cfg2 parse (oblivious events clock) req2))).
  { unfold serve, handler. rewrite Hs, Hb.
    destruct (opt_jstr_eqb (x_shared_secret req2) (SHARED_SECRET cfg2));
      cbn [negb]; [|now split].
    destruct (negb (truthy (get (js_or (req_body req2) (JObj [])) (lit "firstName")))
              || negb (truthy (get (js_or (req_body req2) (JObj [])) (lit "lastName")))
              || negb (truthy (get (js_or (req_body req2) (JObj [])) (lit "ssn"))));
      [now split|].
    rewrite !buildSoap_eq.
    destruct (ToString (get (js_or (req_body req2) (JObj [])) (lit "firstName")));
      [|now split].
    destruct (ToString (get (js_or (req_body req2) (JObj [])) (lit "lastName")));
      [|now split].
    destruct (ToString (get (js_or (req_body req2) (JObj [])) (lit "ssn")));
      [|now split].
    rewrite HR. now apply attempts_blank. }
  destruct H as [Hr Ht]. repeat split; try assumption.
  now apply blank_logged.
Qed.

End Confidentiality.

(* ================================================================== *)
(** * The handler on the sample data *)

Module OnSamples.
Import Ref Sample EnvelopeSpec.

(** ** Spec examples *)

Example records_found_3 :
  fst (handle (answering found3) (request ann))
  = Responded (json 200 [(lit "ok", JBool true);
                         (lit "transactionId", JStr (lit "tx-1"));
                         (lit "recordsFound", JNum (RInt 3));
                         (lit "data", JObj [(lit "ErrorCode", JStr (lit "0"));
                                            (lit "TransactionId", JStr (lit "tx-1"));
                                            (lit "NumberOfRecordsFound", JStr (lit "3"))])]).
Proof. vm_compute. reflexivity. Qed.

Example unrecognised_document_502 :
  fst (handle (answering (lit "<html>Bad Gateway</html>")) (request ann))
  = Responded (json 502 [(lit "ok", JBool false);
                         (lit "error", JStr (lit "SOAP_PARSE_FAILED"));
                         (lit "rawStart", JStr (lit "<html>Bad Gateway</html>"))]).
Proof. vm_compute. reflexivity. Qed.

Example empty_body_502 :
  fst (handle (answering []) (request ann))
  = Responded (json 502 [(lit "ok", JBool false);
                         (lit "error", JStr (lit "SOAP_PARSE_FAILED"));
                         (lit "rawStart", JStr [])]).
Proof. vm_compute. reflexivity. Qed.

(** Two failed attempts, then a completed one: its response is used, and
    two failures are logged. *)
Example third_attempt_succeeds :
  answered_status (fst (handle (flaky found3) (request ann))) = Some 200
  /\ calls (snd (handle (flaky found3) (request ann))) = 3
  /\ logged (snd (handle (flaky found3) (request ann)))
     = [warn_entry (flaky found3) 1 1 (refused 0);
        warn_entry (flaky found3) 3 2 (refused 1)].
Proof. repeat split; vm_compute; reflexivity. Qed.

(** A carriage return in a field comes back as a line feed. *)
Example carriage_return_read_back_as_line_feed :
  option_map (field [lit "tlo:Name"; lit "tlo:FirstName"])
    (Xml.parse_xml (envelope cfg (request with_return)))
  = Some (Some [65%N; LF; 66%N]).
Proof. vm_compute. reflexivity. Qed.

(** A first name on which [String] throws: the request passes the
    validation, no call is made and no response is sent. *)
Example unconvertible_first_name :
  validated (request unconvertible)
  /\ envelope_of cfg (request unconvertible) = None
  /\ handle (answering found3) (request unconvertible) = (Thrown, []).
Proof. repeat split; vm_compute; reflexivity. Qed.

(** ** C6 *)

Lemma unauthorized_rejected_without_outbound_call_witness :
  x_shared_secret anonymous <> SHARED_SECRET cfg
  /\ handle refusing anonymous = (Responded unauthorized_response, [])
  /\ calls (snd (handle refusing anonymous)) = 0.
Proof.
  assert (H : x_shared_secret anonymous <> SHARED_SECRET cfg) by discriminate.
  split; [exact H|].
  exact (unauthorized_rejected_without_outbound_call cfg parseString refusing
           anonymous H).
Defined.

(** When no secret is configured, header and secret are both undefined:
    a request without the header is let through. *)
Example unset_secret_admits_missing_header :
  x_shared_secret anonymous = SHARED_SECRET cfg_unset
  /\ answered_status (fst (serve cfg_unset parseString (answering found3) anonymous))
     = Some 200.
Proof. split; vm_compute; reflexivity. Qed.

(** ** C7 *)

(** The claim fails for a field that is present and is not a string: with
    firstName = true the request is not answered 400, and the upstream
    is called with the envelope carrying "true". *)
Lemma non_string_field_passes_validation :
  authenticated cfg (request untyped)
  /\ field_of (request untyped) "firstName" = JBool true
  /\ fst (handle (answering found3) (request untyped))
     <> Responded invalid_input_response
  /\ calls (snd (handle (answering found3) (request untyped))) = 1
  /\ option_map (field [lit "tlo:Name"; lit "tlo:FirstName"])
       (Xml.parse_xml (envelope cfg (request untyped)))
     = Some (Some (lit "true")).
Proof.
  split; [vm_compute; reflexivity|]. split; [vm_compute; reflexivity|].
  split.
  - intros H. apply (f_equal answered_status) in H. vm_compute in H.
    discriminate.
  - split; vm_compute; reflexivity.
Qed.

Lemma falsy_field_rejected_as_invalid_input_witness :
  authenticated cfg (request incomplete)
  /\ handle (answering found3) (request incomplete)
     = (Responded invalid_input_response, []).
Proof.
  assert (H : authenticated cfg (request incomplete)) by (vm_compute; reflexivity).
  split; [exact H|].
  apply (proj1 (falsy_field_rejected_as_invalid_input cfg parseString
                  (answering found3) (request incomplete) H)).
  right; left. vm_compute; reflexivity.
Defined.

(** ** C4 *)

(** The claim fails for an ErrorCode that is not "0" but falsy: an empty
    ErrorCode element is parsed to the empty string, and the answer is
    the success answer. *)
Lemma empty_error_code_is_success :
  get (result_node (parsed_of empty_code)) (lit "ErrorCode") = JStr []
  /\ (JStr [] : jsval refnum) <> JStr (lit "0")
  /\ fst (handle (answering empty_code) (request ann))
     = Responded (json 200 [(lit "ok", JBool true);
                            (lit "transactionId", JUndefined);
                            (lit "recordsFound", JNum RNaN);
                            (lit "data", JObj [(lit "ErrorCode", JStr []);
                                               (lit "ErrorMessage", JStr (lit "failed"))])]).
Proof.
  split; [vm_compute; reflexivity|].
  split; [discriminate|].
  vm_compute. reflexivity.
Qed.

(** The business error of the third attempt, after two refused ones. *)
Lemma business_error_passed_through_witness :
  fst (handle (flaky code12) (request ann))
  = Responded
      {| status := 200;
         body := JObj [(lit "ok", JBool false);
                       (lit "tloError", JBool true);
                       (lit "errorCode", JStr (lit "12"));
                       (lit "errorMessage", JStr (lit "No records"))] |}
  /\ calls (snd (handle (flaky code12) (request ann))) = 3.
Proof.
  apply (business_error_passed_through cfg parseString (flaky code12)
           (request ann) 2 (completed code12) (parsed_of code12)).
  - vm_compute; reflexivity.
  - repeat split; vm_compute; reflexivity.
  - vm_compute; lia.
  - intros [|[|j]] Hj; [exists (refused 0) | exists (refused 1) | lia];
      vm_compute; reflexivity.
  - vm_compute; reflexivity.
  - vm_compute; reflexivity.
  - vm_compute; reflexivity.
  - vm_compute; reflexivity.
  - vm_compute; discriminate.
Defined.

(** ** C10 *)

(** A count that is not a numeric string: the answer is the success
    answer, with null for the count. *)
Example unreadable_count_is_null :
  fst (handle (answering uncounted) (request ann))
  = Responded (success_response
                 (JObj [(lit "ErrorCode", JStr (lit "0"));
                        (lit "NumberOfRecordsFound", JStr (lit "many"))])
                 RNaN)
  /\ includes
       (body_text
          (success_response
             (JObj [(lit "ErrorCode", JStr (lit "0"));
                    (lit "NumberOfRecordsFound", JStr (lit "many"))])
             RNaN))
       (quote (lit "recordsFound") ++ lit ":null") = true.
Proof. split; vm_compute; reflexivity. Qed.

(** A count on which [Number] throws: all three attempts are logged as
    failed and the answer is 504. *)
Example unconvertible_count_answered_504 :
  get (result_node (parsed_of uncountable)) (lit "NumberOfRecordsFound")
  = JObj [(lit "valueOf", JStr (lit "1")); (lit "toString", JStr (lit "2"))]
  /\ fst (handle (answering uncountable) (request ann))
     = Responded gateway_timeout_response
  /\ calls (snd (handle (answering uncountable) (request ann))) = 3
  /\ logged (snd (handle (answering uncountable) (request ann)))
     = [warn_entry (answering uncountable) 1 1 cannot_convert;
        warn_entry (answering uncountable) 3 2 cannot_convert;
        warn_entry (answering uncountable) 5 3 cannot_convert].
Proof. repeat split; vm_compute; reflexivity. Qed.

(** The failing input: the first exchange completes with a result node
    whose count cannot be converted; it is logged as a failed attempt and
    the envelope is sent again. *)
Lemma success_with_unreadable_count_witness :
  nth_error (logged (snd (handle (answering uncountable) (request ann)))) 0
  = Some (warn_entry (answering uncountable) 1 1 cannot_convert)
  /\ 2 <= calls (snd (handle (answering uncountable) (request ann))).
Proof.
  destruct (success_with_unreadable_count cfg parseString (answering uncountable)
              (request ann) 0 (completed uncountable) (parsed_of uncountable))
    as (_ & _ & _ & _ & Hthrow).
  - vm_compute; reflexivity.
  - repeat split; vm_compute; reflexivity.
  - vm_compute; lia.
  - intros j Hj. lia.
  - vm_compute; reflexivity.
  - vm_compute; reflexivity.
  - vm_compute; reflexivity.
  - right. vm_compute; reflexivity.
  - destruct Hthrow as (Hlog & Hmore & _); [vm_compute; reflexivity|].
    split; [exact Hlog|]. apply Hmore. vm_compute; lia.
Defined.

(** ** C5 *)

Lemma retry_exhaustion_answers_504_witness :
  serve (CONFIG penv) parseString refusing (request ann)
  = (Responded
       {| status := 504;
          body := JObj [(lit "ok", JBool false);
                        (lit "error", JStr (lit "TLO_TIMEOUT"))] |},
     [ECall (envelope (CONFIG penv) (request ann)); warn_entry refusing 1 1 (refused 0);
      ECall (envelope (CONFIG penv) (request ann)); warn_entry refusing 3 2 (refused 1);
      ECall (envelope (CONFIG penv) (request ann)); warn_entry refusing 5 3 (refused 2)]).
Proof.
  apply retry_exhaustion_answers_504.
  - vm_compute; reflexivity.
  - repeat split; vm_compute; reflexivity.
  - vm_compute; reflexivity.
  - vm_compute; reflexivity.
  - vm_compute; reflexivity.
Defined.

(** ** C1, C2, C3: the failing inputs *)

Lemma completed_exchange_with_malformed_body_is_retried_witness :
  exists t,
    snd (handle (answering truncated) (request ann))
    = ECall (envelope cfg (request ann))
      :: warn_entry (answering truncated) 1 1 invalid_xml
      :: ECall (envelope cfg (request ann)) :: t.
Proof.
  apply (completed_exchange_with_malformed_body_is_retried parseString
           (answering truncated) cfg (request ann) (completed truncated)
           invalid_xml).
  - vm_compute; reflexivity.
  - repeat split; vm_compute; reflexivity.
  - cbn. lia.
  - vm_compute; reflexivity.
  - vm_compute; reflexivity.
Defined.

Lemma malformed_body_answered_504_witness :
  fst (handle (answering truncated) (request ann)) = Responded timeout_response
  /\ calls (snd (handle (answering truncated) (request ann))) = 3.
Proof.
  apply (malformed_body_answered_504 parseString (answering truncated) cfg
           (request ann)).
  - vm_compute; reflexivity.
  - repeat split; vm_compute; reflexivity.
  - intros k. exists (completed truncated), invalid_xml.
    split; vm_compute; reflexivity.
Defined.

Lemma timeout_leaves_attempt_pending_witness :
  attempt_outcome cfg silent (request ann) 0 = Pending
  /\ handle silent (request ann) = (Awaiting, [ECall (envelope cfg (request ann))]).
Proof.
  apply (timeout_leaves_attempt_pending parseString silent cfg (request ann)).
  - vm_compute; reflexivity.
  - repeat split; vm_compute; reflexivity.
  - repeat split; vm_compute; discriminate.
  - vm_compute; reflexivity.
Defined.

(** ** C8 *)

(** The claim fails for a field with a character that XML 1.0 forbids:
    the envelope around U+0001 is built, and is not well-formed. *)
Lemma control_character_breaks_envelope :
  envelope_of cfg (request with_control)
  = Some (envelope cfg (request with_control))
  /\ Xml.xml_chars (envelope cfg (request with_control)) = false
  /\ ~ Xml.well_formed (envelope cfg (request with_control)).
Proof.
  split; [vm_compute; reflexivity|].
  split; [vm_compute; reflexivity|].
  intros [t H]. vm_compute in H. discriminate.
Qed.

(** Reserved characters in two fields and a carriage return in the
    third. *)
Lemma envelope_well_formed_roundtrip_witness :
  exists soap t,
    buildSoap cfg reserved_first cr_first reserved_ssn = Some soap
    /\ Xml.parse_xml soap = Some t
    /\ field [lit "tlo:Username"] t = Some (lit "acct-7")
    /\ field [lit "tlo:Password"] t = Some (lit "p&ss<w>rd")
    /\ field [lit "tlo:Name"; lit "tlo:FirstName"] t = Some (lit "Ann & <Bob>")
    /\ field [lit "tlo:Name"; lit "tlo:LastName"] t = Some [65%N; LF; 66%N]
    /\ field [lit "tlo:SSN"] t = Some (lit "12" ++ [dquote] ++ lit "3").
Proof.
  destruct (envelope_well_formed_roundtrip cfg reserved_first cr_first
              reserved_ssn (lit "Ann & <Bob>") [65%N; CR; 66%N]
              (lit "12" ++ [dquote] ++ lit "3")
              ltac:(vm_compute; reflexivity) ltac:(vm_compute; reflexivity)
              ltac:(vm_compute; reflexivity) ltac:(vm_compute; reflexivity)
              ltac:(vm_compute; reflexivity) ltac:(vm_compute; reflexivity)
              ltac:(vm_compute; reflexivity) ltac:(vm_compute; reflexivity))
    as (soap & t & Hsoap & Hparse & _ & _ & _ & _ & Hl & _ & Hu & Hp & Hf & _ & Hs).
  exists soap, t.
  split; [exact Hsoap|]. split; [exact Hparse|].
  split; [apply Hu; vm_compute; reflexivity|].
  split; [apply Hp; vm_compute; reflexivity|].
  split; [apply Hf; vm_compute; reflexivity|].
  split; [exact Hl|].
  apply Hs; vm_compute; reflexivity.
Defined.

(** ** C9 *)

(** Two deployments with different credentials, each asked with its own
    secret in the header. *)
Lemma credentials_do_not_reach_logs_or_responses_witness :
  fst (serve cfg parseString (oblivious refusals clock) (request ann))
  = fst (serve cfg_rotated parseString (oblivious refusals clock)
           (request_rotated ann))
  /\ map blank (snd (serve cfg parseString (oblivious refusals clock)
                       (request ann)))
     = map blank (snd (serve cfg_rotated parseString (oblivious refusals clock)
                         (request_rotated ann)))
  /\ logged (snd (serve cfg parseString (oblivious refusals clock)
                    (request ann)))
     = logged (snd (serve cfg_rotated parseString (oblivious refusals clock)
                      (request_rotated ann))).
Proof.
  apply (credentials_do_not_reach_logs_or_responses parseString
           refusals clock cfg cfg_rotated (request ann) (request_rotated ann));
    vm_compute; reflexivity.
Defined.

End OnSamples.

(* ================================================================== *)
(** * Further properties *)

(** ** The escaping function *)

Section EscapeProperties.
Context {num : Type} {JN : JsNum num}.
Import Xml EnvelopeSpec EscapeSpec XmlFacts.

Lemma escape_char_cases c :
  (reserved c = true
   /\ exists tail, escape_char c = 38%N :: tail
                   /\ forallb (fun x => negb (reserved x)) tail = true
                   /\ tail <> [])
  \/ (reserved c = false /\ escape_char c = [c]).
Proof.
  unfold reserved, escape_char.
  destruct (N.eqb_spec c 38) as [->|H38];
    [left; split; [reflexivity|]; eexists; repeat split; discriminate|].
  destruct (N.eqb_spec c 60) as [->|H60];
    [left; split; [reflexivity|]; eexists; repeat split; discriminate|].
  destruct (N.eqb_spec c 62) as [->|H62];
    [left; split; [reflexivity|]; eexists; repeat split; discriminate|].
  destruct (N.eqb_spec c 34) as [->|H34];
    [left; split; [reflexivity|]; eexists; repeat split; discriminate|].
  destruct (N.eqb_spec c 39) as [->|H39];
    [left; split; [reflexivity|]; eexists; repeat split; discriminate|].
  right. split; reflexivity.
Qed.

Lemma reserved_markup c : reserved c = false -> markup c = false.
Proof.
  unfold reserved, markup. destruct (c =? 38)%N; [discriminate|]. trivial.
Qed.

Lemma plain_markup tail x :
  forallb (fun c => negb (reserved c)) tail = true -> In x tail -> markup x = false.
Proof.
  intros H Hin. rewrite forallb_forall in H. specialize (H x Hin).
  apply negb_true_iff in H. now apply reserved_markup.
Qed.

Lemma escape_cons c s : escape (c :: s) = escape_char c ++ escape s.
Proof. reflexivity. Qed.

Lemma escaped_char_not_markup (s : jstr) (c : char) :
  In c (escape s) -> markup c = false.
Proof.
  induction s as [|x s IH]; [contradiction|].
  rewrite escape_cons, in_app_iff. intros [Hin|Hin]; [|auto].
  destruct (escape_char_cases x) as [(_ & tail & E & Ht & _) | (Hr & E)];
    rewrite E in Hin.
  - destruct Hin as [<-|Hin]; [reflexivity|]. eapply plain_markup; eauto.
  - destruct Hin as [<-|[]]. now apply reserved_markup.
Qed.

Lemma escape_injective a b : escape a = escape b -> a = b.
Proof.
  intros H.
  pose proof (run_escape a [] (Frame [] [] []) [] None) as Ha.
  pose proof (run_escape b [] (Frame [] [] []) [] None) as Hb.
  rewrite H, Hb in Ha. injection Ha as Ha. rewrite !app_nil_r in Ha.
  apply (f_equal (@rev _)) in Ha. now rewrite !rev_involutive in Ha.
Qed.

(** X1: the text [xmlEscape] returns contains no angle bracket, double
    quote or apostrophe, whatever value it is given. *)
Theorem escaped_text_has_no_markup (v : jsval num) (text : jstr) :
  xmlEscape v = Some text ->
  forallb (fun c => negb (markup c)) text = true.
Proof.
  rewrite xmlEscape_escape.
  destruct (ToString v) as [s|]; [|discriminate]. intros [= <-].
  apply forallb_forall. intros c Hin.
  now rewrite (escaped_char_not_markup s c Hin).
Qed.

(** X2: [xmlEscape] loses nothing: two values with the same escaped text
    have the same string form (and it throws on both, or on neither). *)
Theorem xmlEscape_injective (v w : jsval num) :
  xmlEscape v = xmlEscape w -> ToString v = ToString w.
Proof.
  rewrite !xmlEscape_escape.
  destruct (ToString v) as [a|], (ToString w) as [b|]; cbn;
    try discriminate; [|reflexivity].
  intros [= H]. f_equal. now apply escape_injective.
Qed.

Lemma escape_plain s : plain s = true -> escape s = s.
Proof.
  induction s as [|c s IH]; [trivial|].
  rewrite escape_cons. cbn [plain forallb].
  intros H. apply andb_true_iff in H as [Hc Hs]. apply negb_true_iff in Hc.
  destruct (escape_char_cases c) as [(Hr & _) | (_ & ->)]; [congruence|].
  cbn [app]. now rewrite IH.
Qed.

Lemma escape_length s : length s <= length (escape s).
Proof.
  induction s as [|c s IH]; [simpl; lia|].
  rewrite escape_cons, length_app.
  destruct (escape_char_cases c) as [(_ & tail & -> & _) | (_ & ->)];
    cbn [length]; lia.
Qed.

Lemma escape_grows s : plain s = false -> length s < length (escape s).
Proof.
  induction s as [|c s IH]; [discriminate|].
  rewrite escape_cons, length_app. cbn [plain forallb].
  pose proof (escape_length s) as Hl.
  destruct (escape_char_cases c) as [(Hr & tail & -> & _ & Hne) | (Hr & ->)].
  - intros _. destruct tail; [congruence|]. cbn [length]. lia.
  - rewrite Hr. cbn [negb andb length]. intros H. apply IH in H. lia.
Qed.

Lemma escape_keeps_reserved s : plain s = false -> plain (escape s) = false.
Proof.
  induction s as [|c s IH]; [trivial|].
  rewrite escape_cons. unfold plain in *. rewrite forallb_app. cbn [forallb].
  destruct (escape_char_cases c) as [(Hr & tail & -> & _) | (Hr & ->)].
  - intros _. reflexivity.
  - cbn [forallb]. rewrite Hr. cbn [negb andb]. auto.
Qed.

(** X3: [xmlEscape] never shortens a string, and it returns the string
    form of its argument unchanged exactly when that contains none of
    the five reserved characters. *)
Theorem xmlEscape_identity_iff_plain (v : jsval num) (s : jstr) :
  ToString v = Some s ->
  exists text,
    xmlEscape v = Some text
    /\ length s <= length text
    /\ (text = s <-> plain s = true).
Proof.
  intros Hs. exists (escape s). rewrite xmlEscape_escape, Hs.
  split; [reflexivity|]. split; [apply escape_length|].
  split; [|apply escape_plain].
  intros H. destruct (plain s) eqn:Hp; [reflexivity|].
  apply escape_grows in Hp. rewrite H in Hp. lia.
Qed.

(** X4: [xmlEscape] is not idempotent: escaping escaped text changes it
    again, except for text without reserved characters. *)
Theorem xmlEscape_twice (v : jsval num) (s text : jstr) :
  ToString v = Some s ->
  xmlEscape v = Some text ->
  (xmlEscape (JStr text : jsval num) = Some text <-> plain s = true).
Proof.
  intros Hs. rewrite !xmlEscape_escape, Hs. cbn [ToString option_map].
  intros [= <-]. split.
  - intros [= H]. destruct (plain s) eqn:Hp; [reflexivity|].
    apply escape_keeps_reserved, escape_grows in Hp. rewrite H in Hp. lia.
  - intros Hp. now rewrite (escape_plain _ Hp), (escape_plain _ Hp).
Qed.

(** X5: escaping a concatenation is concatenating the escaped parts. *)
Theorem xmlEscape_concat (a b : jstr) :
  exists ta tb,
    xmlEscape (JStr a : jsval num) = Some ta
    /\ xmlEscape (JStr b : jsval num) = Some tb
    /\ xmlEscape (JStr (a ++ b) : jsval num) = Some (ta ++ tb).
Proof.
  exists (escape a), (escape b). rewrite !xmlEscape_escape.
  cbn [ToString option_map]. repeat split.
  f_equal. apply flat_map_app.
Qed.

(** X6: the envelope determines what was put into it: two calls of
    [buildSoap] return the same envelope only if the two credentials and
    the three query fields have the same string forms. *)
Theorem buildSoap_injective cfg cfg' (f l s f' l' s' : jsval num) (soap : jstr) :
  buildSoap cfg f l s = Some soap ->
  buildSoap cfg' f' l' s' = Some soap ->
  ToString (of_env (TLO_USERNAME cfg) : jsval num)
  = ToString (of_env (TLO_USERNAME cfg') : jsval num)
  /\ ToString (of_env (TLO_PASSWORD cfg) : jsval num)
     = ToString (of_env (TLO_PASSWORD cfg') : jsval num)
  /\ ToString f = ToString f' /\ ToString l = ToString l'
  /\ ToString s = ToString s'.
Proof.
  assert (Hk : forall a b, text_kids a = text_kids b -> a = b).
  { intros [|x a] [|y b] E; try discriminate E; [reflexivity|].
    cbn in E. now injection E as -> ->. }
  rewrite !buildSoap_eq, !ToString_of_env.
  destruct (ToString f) as [a|]; [|discriminate].
  destruct (ToString l) as [b|]; [|discriminate].
  destruct (ToString s) as [c|]; [|discriminate].
  destruct (ToString f') as [a'|]; [|discriminate].
  destruct (ToString l') as [b'|]; [|discriminate].
  destruct (ToString s') as [c'|]; [|discriminate].
  intros [= H1] [= H2].
  pose proof (run_template (credential (TLO_USERNAME cfg))
                (credential (TLO_PASSWORD cfg)) a b c) as R1.
  pose proof (run_template (credential (TLO_USERNAME cfg'))
                (credential (TLO_PASSWORD cfg')) a' b' c') as R2.
  rewrite H1 in R1. rewrite H2, R1 in R2.
  injection R2 as Hu Hp Hf Hl Hs.
  repeat split; f_equal; apply Hk; assumption.
Qed.

End EscapeProperties.

(** ** The transport client *)

Section TransportProperties.

Lemma settled_stays st ev :
  promise st <> Pending -> promise (on_event st ev) = promise st.
Proof.
  destruct st as [r p]. cbn [promise]. intros H.
  destruct p; [congruence| |];
    destruct ev; cbn; try reflexivity;
    destruct r as [[code chunks]|]; reflexivity.
Qed.

Lemma settled_stays_all events : forall st,
  promise st <> Pending ->
  promise (fold_left on_event events st) = promise st.
Proof.
  induction events as [|ev events IH]; intros st H; [reflexivity|].
  simpl. rewrite IH; rewrite settled_stays; auto.
Qed.

Lemma settled_for_good events more :
  callTlo_promise events <> Pending ->
  callTlo_promise (events ++ more) = callTlo_promise events.
Proof.
  unfold callTlo_promise. intros H. rewrite fold_left_app.
  now apply settled_stays_all.
Qed.

(** X7: the promise of [callTlo] settles once: after the events that
    resolved or rejected it, no further event (a late error, more data,
    a second end) changes the result. *)
Theorem callTlo_settles_once events more :
  callTlo_promise events <> Pending ->
  callTlo_promise (events ++ more) = callTlo_promise events.
Proof. apply settled_for_good. Qed.

Lemma timeouts_filtered events : forall st,
  fold_left on_event (filter (fun ev => negb (is_timeout ev)) events) st
  = fold_left on_event events st.
Proof.
  induction events as [|ev events IH]; intros st; [reflexivity|].
  destruct ev; simpl; apply IH.
Qed.

(** X8: 'timeout' events never matter, wherever they occur among the
    events of an attempt: the promise ends as it would without them. *)
Theorem callTlo_ignores_timeouts events :
  callTlo_promise (filter (fun ev => negb (is_timeout ev)) events)
  = callTlo_promise events.
Proof. unfold callTlo_promise. now rewrite timeouts_filtered. Qed.

Lemma chunks_collected chunks : forall code acc p,
  fold_left on_event (map EvData chunks) {| res := Some (code, acc); promise := p |}
  = {| res := Some (code, acc ++ chunks); promise := p |}.
Proof.
  induction chunks as [|d chunks IH]; intros code acc p; simpl.
  - now rewrite app_nil_r.
  - rewrite IH, <- app_assoc. reflexivity.
Qed.

(** X9: an exchange that completes resolves the promise with the status
    code of the response and the chunks of its body concatenated in the
    order they arrived; whatever follows the end is ignored. *)
Theorem callTlo_resolves_with_whole_body code chunks more :
  callTlo_promise (exchange_events code chunks ++ more)
  = Resolved {| httpStatus := code; raw := concat chunks |}.
Proof.
  assert (H : callTlo_promise (exchange_events code chunks)
              = Resolved {| httpStatus := code; raw := concat chunks |}).
  { unfold callTlo_promise, exchange_events. cbn [fold_left on_event].
    rewrite fold_left_app, chunks_collected. reflexivity. }
  rewrite settled_for_good; rewrite H; [reflexivity | discriminate].
Qed.

(** X10: an 'error' on a request that has not settled rejects the
    promise with that error, also after the response has begun: the
    chunks received so far are dropped. *)
Theorem callTlo_error_rejects_pending events err more :
  callTlo_promise events = Pending ->
  callTlo_promise (events ++ EvError err :: more) = Rejected err.
Proof.
  intros H.
  assert (H1 : callTlo_promise (events ++ [EvError err]) = Rejected err).
  { unfold callTlo_promise in *. rewrite fold_left_app. cbn [fold_left on_event].
    unfold settle. now rewrite H. }
  change (events ++ EvError err :: more) with (events ++ [EvError err] ++ more).
  rewrite app_assoc, settled_for_good; rewrite H1;
    [reflexivity | discriminate].
Qed.

End TransportProperties.

(** ** The handler, further *)

Section HandlerInvariants.
Context {num : Type} {JN : JsNum num}.
Variable cfg : Config.
Variable parse : jstr -> jsval num + JsError.
Variable env : Environment.

Lemma classify_status x parsed (r : Response num) :
  classify x parsed = Some r -> known_status (status r) = true.
Proof.
  unfold classify.
  destruct (negb (truthy (result_node parsed))); [now intros [= <-]|].
  destruct (truthy (get (result_node parsed) (lit "ErrorCode"))
            && not_string_zero (get (result_node parsed) (lit "ErrorCode")));
    [now intros [= <-]|].
  destruct (ToNumber (get (result_node parsed) (lit "NumberOfRecordsFound")));
    [now intros [= <-] | discriminate].
Qed.

(** X11: whatever the request and the upstream do, a response of the
    handler has one of the statuses 200, 400, 401, 502 and 504. *)
Theorem response_status_is_known req r :
  fst (serve cfg parse env req) = Responded r ->
  known_status (status r) = true.
Proof.
  destruct (serve_cases cfg parse env req)
    as [H | [H | [[_ H] | (soap & _ & H)]]]; rewrite H; cbn [fst];
    try (now intros [= <-]); try discriminate.
  revert r.
  apply (attempts_ind cfg parse env
           (fun _ _ o => forall r, fst o = Responded r -> known_status (status r) = true));
    cbn [fst]; try discriminate.
  - intros attempt t x parsed r0 _ _ _ Hc r [= <-].
    exact (classify_status x parsed r0 Hc).
  - intros attempt t err _ _ r [= <-]. reflexivity.
  - auto.
Qed.

Lemma attempts_counts soap fuel : forall attempt t,
  calls (snd (attempts cfg parse env fuel soap attempt t))
  <= calls t + (RETRIES cfg + 2 - attempt)
  /\ length (logged (snd (attempts cfg parse env fuel soap attempt t))) + calls t
     <= length (logged t) + calls (snd (attempts cfg parse env fuel soap attempt t))
  /\ calls t <= calls (snd (attempts cfg parse env fuel soap attempt t)).
Proof.
  apply (attempts_ind cfg parse env
           (fun attempt t o =>
              calls (snd o) <= calls t + (RETRIES cfg + 2 - attempt)
              /\ length (logged (snd o)) + calls t
                 <= length (logged t) + calls (snd o)
              /\ calls t <= calls (snd o)));
    cbn [snd].
  - intros attempt t. lia.
  - intros attempt t H. lia.
  - intros attempt t H _. rewrite calls_app, logged_app. cbn. lia.
  - intros attempt t x parsed r H _ _ _. rewrite calls_app, logged_app. cbn. lia.
  - intros attempt t err H _. rewrite !calls_app, !logged_app. cbn. lia.
  - intros attempt t err o H _. rewrite !calls_app, !logged_app. cbn. lia.
Qed.

(** X12: a request makes at most RETRIES + 1 outbound calls, and it logs
    at most one entry per call. *)
Theorem calls_and_logs_bounded req :
  calls (snd (serve cfg parse env req)) <= RETRIES cfg + 1
  /\ length (logged (snd (serve cfg parse env req)))
     <= calls (snd (serve cfg parse env req)).
Proof.
  destruct (serve_cases cfg parse env req)
    as [H | [H | [[_ H] | (soap & _ & H)]]]; rewrite H; cbn [snd];
    try (cbn; lia).
  pose proof (attempts_counts soap (RETRIES cfg + 1) 1 []) as Hc.
  cbn [calls logged filter length] in Hc. lia.
Qed.

Lemma every_call_carries_the_envelope req e :
  In e (snd (serve cfg parse env req)) ->
  is_call e = true ->
  e = ECall (envelope cfg req).
Proof.
  destruct (serve_cases cfg parse env req)
    as [H | [H | [[_ H] | (soap & Hsoap & H)]]]; rewrite H; cbn [snd];
    try (intros []).
  rewrite (envelope_some cfg req soap Hsoap).
  assert (Hall : forall fuel attempt t,
             (forall x, In x t -> is_call x = true -> x = ECall soap) ->
             forall x, In x (snd (attempts cfg parse env fuel soap attempt t)) ->
                       is_call x = true -> x = ECall soap).
  { apply (attempts_ind cfg parse env
             (fun _ t o =>
                (forall x, In x t -> is_call x = true -> x = ECall soap) ->
                forall x, In x (snd o) -> is_call x = true -> x = ECall soap));
      cbn [snd].
    - auto.
    - auto.
    - intros _ t _ _ Ht x Hin Hc.
      apply in_app_iff in Hin as [Hin|[E|[]]]; [auto | subst; auto].
    - intros attempt t y parsed r _ _ _ _ Ht x Hin Hc.
      apply in_app_iff in Hin as [Hin|[E|[]]]; [auto | subst; auto].
    - intros attempt t err _ _ Ht x Hin Hc.
      apply in_app_iff in Hin as [Hin|[E|[]]]; [|subst; discriminate].
      apply in_app_iff in Hin as [Hin|[E|[]]]; [auto | subst; auto].
    - intros attempt t err o _ _ IH Ht. apply IH.
      intros x Hin Hc.
      apply in_app_iff in Hin as [Hin|[E|[]]]; [|subst; discriminate].
      apply in_app_iff in Hin as [Hin|[E|[]]]; [auto | subst; auto]. }
  intros Hin Hc. eapply Hall; eauto. intros x [].
Qed.

Lemma filter_all_same (t : list (Effect num)) c :
  (forall e, In e t -> is_call e = true -> e = c) ->
  filter is_call t = repeat c (calls t).
Proof.
  unfold calls. induction t as [|e t IH]; intros H; [reflexivity|].
  cbn [filter]. destruct (is_call e) eqn:He.
  - cbn [length repeat]. rewrite (H e (or_introl eq_refl) He). f_equal.
    apply IH. intros x Hx. apply H. now right.
  - apply IH. intros x Hx. apply H. now right.
Qed.

(** X13: every outbound call of a request, the first and the retries,
    carries the same body: the calls of the trace are so many copies of
    the call with the envelope built from the request. *)
Theorem retries_resend_the_envelope req :
  filter is_call (snd (serve cfg parse env req))
  = repeat (ECall (envelope cfg req)) (calls (snd (serve cfg parse env req))).
Proof.
  apply filter_all_same. apply every_call_carries_the_envelope.
Qed.

(** X14: when [String] returns on the three fields of a request and
    every outbound call of the request settles, the request is answered:
    the handler never returns without a response. *)
Theorem settled_calls_are_answered req :
  convertible req ->
  settles cfg env req ->
  exists r, fst (serve cfg parse env req) = Responded r.
Proof.
  intros Hconv Hs.
  apply (envelope_of_convertible cfg) in Hconv as [soap Hsoap].
  destruct (serve_cases cfg parse env req)
    as [H | [H | [[Hnone _] | (soap' & Hsoap' & H)]]].
  - rewrite H. eexists; reflexivity.
  - rewrite H. eexists; reflexivity.
  - congruence.
  - assert (soap' = soap) by congruence. subst soap'.
    destruct (attempts_answers cfg parse env (RETRIES cfg + 1) soap 1 [])
      as [Hr|Ha]; [lia | lia | now rewrite H |].
    exfalso. revert Ha.
    apply (attempts_ind cfg parse env (fun _ _ o => fst o = Awaiting -> False));
      cbn [fst]; try discriminate.
    + intros _ t _ Hp _. apply (Hs (calls t)).
      now rewrite (attempt_outcome_some cfg env req soap _ Hsoap).
    + auto.
Qed.

(** X15: when the first [k] attempts fail, [k] is within the retry
    budget and the next attempt completes with a body that parses and is
    classified, the handler answers with that classification, after
    [k + 1] calls and [k] log entries. *)
Theorem answers_from_first_parsed_exchange req k x parsed r :
  authenticated cfg req -> validated req ->
  k <= RETRIES cfg ->
  (forall j, j < k -> caught parse env (envelope cfg req) j) ->
  attempt_outcome cfg env req k = Resolved x ->
  parse (raw x) = inl parsed ->
  classify x parsed = Some r ->
  fst (serve cfg parse env req) = Responded r
  /\ calls (snd (serve cfg parse env req)) = k + 1
  /\ length (logged (snd (serve cfg parse env req))) = k.
Proof. apply serve_answers_on_attempt. Qed.

(** X16: when the envelope of a request is built and every attempt
    fails, in whichever way, the handler answers with HTTP 504 and the
    body {ok:false, error:"TLO_TIMEOUT"} after RETRIES + 1 calls, each of
    them logged. *)
Theorem exhaustion_is_logged_per_attempt req :
  authenticated cfg req -> validated req ->
  convertible req ->
  (forall k, caught parse env (envelope cfg req) k) ->
  fst (serve cfg parse env req)
  = Responded
      {| status := 504;
         body := JObj [(lit "ok", JBool false);
                       (lit "error", JStr (lit "TLO_TIMEOUT"))] |}
  /\ calls (snd (serve cfg parse env req)) = RETRIES cfg + 1
  /\ length (logged (snd (serve cfg parse env req))) = RETRIES cfg + 1.
Proof.
  intros Hauth Hval Hconv Hc.
  apply (envelope_of_convertible cfg) in Hconv as [soap Hsoap].
  rewrite (envelope_some cfg req soap Hsoap) in Hc.
  destruct (serve_after_failures cfg parse env req soap (RETRIES cfg)
              Hauth Hval Hsoap (le_n _) ltac:(intros; apply Hc))
    as (t & Heq & Hcalls & Hlogs & _).
  rewrite Heq, Nat.sub_diag.
  destruct (Hc (calls t)) as [err Hf].
  rewrite (attempts_failed cfg parse env 0 soap (1 + RETRIES cfg) t err)
    by (trivial; lia).
  rewrite catch_eq. cbv zeta.
  replace (RETRIES cfg <? 1 + RETRIES cfg) with true
    by (symmetry; apply Nat.ltb_lt; lia).
  cbn [fst snd]. rewrite !calls_app, !logged_app, Hcalls, Hlogs. cbn.
  repeat split; lia.
Qed.

Lemma get_of_non_object (v : jsval num) k :
  not_an_object v = true -> get (js_or v (JObj [])) k = JUndefined.
Proof.
  unfold js_or. destruct v; cbn; intros H; try reflexivity; try discriminate;
    match goal with
    | |- context [if ?b then _ else _] => destruct b; reflexivity
    end.
Qed.

(** X18: an authenticated request whose body is not an object (absent,
    null, a primitive or an array) is answered 400 INVALID_INPUT without
    an outbound call. *)
Theorem non_object_body_is_invalid_input req :
  authenticated cfg req ->
  not_an_object (req_body req) = true ->
  serve cfg parse env req = (Responded invalid_input_response, []).
Proof.
  intros Hauth Hb. apply serve_invalid; [assumption|]. left.
  unfold field_of. now rewrite get_of_non_object.
Qed.

(** X22: the handler ends by throwing, with no call made and no response
    sent, exactly for an authenticated request whose three fields are
    truthy and one of which [String] cannot convert (an object with an
    own property toString, an object without prototype, or an array that
    holds one): [buildSoap] is called outside the [try]. *)
Theorem unconvertible_field_is_thrown req :
  (authenticated cfg req /\ validated req /\ ~ convertible req)
  <-> serve cfg parse env req = (Thrown, []).
Proof.
  split.
  - intros (Hauth & Hval & Hconv). apply serve_thrown; trivial.
    destruct (envelope_of cfg req) as [soap|] eqn:E; [|reflexivity].
    exfalso. apply Hconv. apply (envelope_of_convertible cfg). eauto.
  - intros Hs.
    destruct (opt_jstr_eqb_spec (x_shared_secret req) (SHARED_SECRET cfg))
      as [Hauth|Hauth];
      [|rewrite (serve_unauthorized cfg parse env req Hauth) in Hs; discriminate].
    destruct (truthy (field_of req "firstName")) eqn:Hf;
      [|rewrite (serve_invalid cfg parse env req Hauth) in Hs by auto;
        discriminate].
    destruct (truthy (field_of req "lastName")) eqn:Hl;
      [|rewrite (serve_invalid cfg parse env req Hauth) in Hs by auto;
        discriminate].
    destruct (truthy (field_of req "ssn")) eqn:Hn;
      [|rewrite (serve_invalid cfg parse env req Hauth) in Hs by auto;
        discriminate].
    assert (Hval : validated req) by (repeat split; assumption).
    split; [exact Hauth | split; [exact Hval|]].
    intros Hconv. apply (envelope_of_convertible cfg) in Hconv as [soap Hsoap].
    destruct (serve_validated_calls cfg parse env req soap Hauth Hval Hsoap)
      as [t Ht].
    rewrite Hs in Ht. discriminate.
Qed.

Lemma classify_502 x parsed (r : Response num) :
  classify x parsed = Some r -> status r = 502 ->
  rawStart_of r = Some (slice0 500 (raw x)).
Proof.
  unfold classify.
  destruct (negb (truthy (result_node parsed))); [now intros [= <-]|].
  destruct (truthy (get (result_node parsed) (lit "ErrorCode"))
            && not_string_zero (get (result_node parsed) (lit "ErrorCode")));
    [intros [= <-]; discriminate|].
  destruct (ToNumber (get (result_node parsed) (lit "NumberOfRecordsFound")));
    [intros [= <-]; discriminate | discriminate].
Qed.

(** X19: in every 502 answer, on whichever attempt, rawStart is the body
    of the exchange of the last call cut to its first 500 code units: a
    prefix of the body, the whole body when that has at most 500 code
    units, and exactly 500 code units otherwise. *)
Theorem parse_failure_excerpt req r :
  fst (serve cfg parse env req) = Responded r ->
  status r = 502 ->
  exists k x excerpt,
    calls (snd (serve cfg parse env req)) = k + 1
    /\ attempt_outcome cfg env req k = Resolved x
    /\ rawStart_of r = Some excerpt
    /\ raw x = excerpt ++ skipn 500 (raw x)
    /\ length excerpt = Nat.min 500 (length (raw x))
    /\ (length (raw x) <= 500 -> excerpt = raw x).
Proof.
  destruct (serve_cases cfg parse env req)
    as [H | [H | [[_ H] | (soap & Hsoap & H)]]]; rewrite H; cbn [fst snd];
    try (intros [= <-]; discriminate); try discriminate.
  revert r.
  apply (attempts_ind cfg parse env
           (fun _ _ o =>
              forall r, fst o = Responded r -> status r = 502 ->
              exists k x excerpt,
                calls (snd o) = k + 1
                /\ attempt_outcome cfg env req k = Resolved x
                /\ rawStart_of r = Some excerpt
                /\ raw x = excerpt ++ skipn 500 (raw x)
                /\ length excerpt = Nat.min 500 (length (raw x))
                /\ (length (raw x) <= 500 -> excerpt = raw x)));
    cbn [fst snd]; try discriminate.
  - intros attempt t x parsed r0 _ Hp _ Hc r [= <-] Hst.
    exists (calls t), x, (slice0 500 (raw x)).
    split; [rewrite calls_app; cbn; lia|].
    split; [now rewrite (attempt_outcome_some cfg env req soap _ Hsoap)|].
    split; [exact (classify_502 x parsed r0 Hc Hst)|]. unfold slice0.
    split; [now rewrite firstn_skipn|]. split; [apply length_firstn|].
    apply firstn_all2.
  - intros attempt t err _ _ r [= <-]. discriminate.
  - auto.
Qed.

End HandlerInvariants.

Section StatusIgnored.
Context {num : Type} {JN : JsNum num}.
Variable cfg : Config.
Variable parse : jstr -> jsval num + JsError.

Lemma step_alike st1 st2 e1 e2 :
  without_status e1 = without_status e2 ->
  same_chunks (res st1) (res st2) ->
  same_body (promise st1) (promise st2) ->
  same_chunks (res (on_event st1 e1)) (res (on_event st2 e2))
  /\ same_body (promise (on_event st1 e1)) (promise (on_event st2 e2)).
Proof.
  destruct st1 as [r1 p1], st2 as [r2 p2]. cbn [res promise].
  intros He Hr Hp.
  destruct e1, e2; try discriminate He; cbn [on_event res promise].
  - split; [reflexivity | exact Hp].
  - injection He as <-.
    destruct r1 as [[c1 ch1]|], r2 as [[c2 ch2]|]; cbn in Hr |- *;
      try contradiction; split; trivial. now subst.
  - destruct r1 as [[c1 ch1]|], r2 as [[c2 ch2]|]; cbn in Hr |- *;
      try contradiction; [|split; trivial].
    subst ch2. unfold settle. cbn [promise res].
    destruct p1, p2; cbn in Hp |- *; try contradiction; split; trivial.
  - injection He as <-. unfold settle. cbn [promise res].
    destruct p1, p2; cbn in Hp |- *; try contradiction; split; trivial.
  - split; assumption.
Qed.

Lemma fold_alike events1 : forall events2 st1 st2,
  map without_status events1 = map without_status events2 ->
  same_chunks (res st1) (res st2) ->
  same_body (promise st1) (promise st2) ->
  same_body (promise (fold_left on_event events1 st1))
    (promise (fold_left on_event events2 st2)).
Proof.
  induction events1 as [|e1 events1 IH]; intros [|e2 events2] st1 st2 He Hr Hp;
    try discriminate He; [exact Hp|].
  injection He as He Hrest. cbn [fold_left].
  destruct (step_alike st1 st2 e1 e2 He Hr Hp) as [Hr' Hp'].
  now apply IH.
Qed.

Lemma promise_alike events1 events2 :
  map without_status events1 = map without_status events2 ->
  same_body (callTlo_promise events1) (callTlo_promise events2).
Proof.
  intros H. unfold callTlo_promise. apply fold_alike; [exact H | exact I | exact I].
Qed.

Lemma classify_raw x y (parsed : jsval num) :
  raw x = raw y -> classify x parsed = classify y parsed.
Proof. unfold classify. now intros ->. Qed.

Lemma attempts_alike env1 env2 soap :
  alike_but_for_status env1 env2 ->
  forall fuel attempt t,
    attempts cfg parse env1 fuel soap attempt t
    = attempts cfg parse env2 fuel soap attempt t.
Proof.
  intros [Hev Hnow].
  induction fuel as [|fuel IH]; intros attempt t; [reflexivity|].
  cbn [attempts]. destruct (attempt <=? RETRIES cfg + 1); [|reflexivity].
  unfold bind, callTlo.
  assert (Hcatch : forall err,
            catch cfg env1 attempt err
              (attempts cfg parse env1 fuel soap (attempt + 1)) (t ++ [ECall soap])
            = catch cfg env2 attempt err
                (attempts cfg parse env2 fuel soap (attempt + 1)) (t ++ [ECall soap])).
  { intros err. rewrite !catch_eq. cbv zeta. unfold warn_entry.
    rewrite Hnow, IH. reflexivity. }
  pose proof (promise_alike _ _ (Hev (calls t) soap)) as Hp.
  destruct (callTlo_promise (upstream env1 (calls t) soap)) as [|x|e1],
           (callTlo_promise (upstream env2 (calls t) soap)) as [|y|e2];
    cbn in Hp; try contradiction.
  - reflexivity.
  - rewrite <- Hp. destruct (parse (raw x)) as [parsed|err]; [|apply Hcatch].
    rewrite (classify_raw x y parsed Hp).
    destruct (classify y parsed); [reflexivity | apply Hcatch].
  - subst e2. apply Hcatch.
Qed.

(** X17: the HTTP status of the upstream answers plays no part: against
    two upstreams that deliver the same events but for the status codes
    of their responses, a request has the same outcome and the same
    trace. *)
Theorem upstream_status_is_ignored env1 env2 req :
  alike_but_for_status env1 env2 ->
  serve cfg parse env1 req = serve cfg parse env2 req.
Proof.
  intros H. unfold serve, handler.
  destruct (negb (opt_jstr_eqb (x_shared_secret req) (SHARED_SECRET cfg)));
    [reflexivity|].
  destruct (negb (truthy (get (js_or (req_body req) (JObj [])) (lit "firstName")))
            || negb (truthy (get (js_or (req_body req) (JObj [])) (lit "lastName")))
            || negb (truthy (get (js_or (req_body req) (JObj [])) (lit "ssn"))));
    [reflexivity|].
  destruct (buildSoap cfg _ _ _); [|reflexivity].
  now apply attempts_alike.
Qed.

End StatusIgnored.

(** ** What is logged *)

Section LogEntries.
Context {num : Type} {JN : JsNum num}.
Variable cfg : Config.
Variable parse : jstr -> jsval num + JsError.
Variable env : Environment.

(** In a trace that stands between two attempts, the log is that of the
    failed attempts. *)
Lemma failures_logged_char soap t :
  failures_logged parse env soap t ->
  forall i e,
    nth_error (logged t) i = Some e
    <-> i < calls t
        /\ exists err, attempt_failure parse env soap i = Some err
                       /\ e = warn_entry env (2 * i + 1) (i + 1) err.
Proof.
  intros (_ & Hlogs & Hall) i e. split.
  - intros Hnth.
    assert (Hi : i < calls t).
    { rewrite <- Hlogs. apply nth_error_Some. congruence. }
    split; [exact Hi|].
    destruct (Hall i Hi) as (err & Hf & Hn). exists err.
    split; [exact Hf | congruence].
  - intros (Hi & err & Hf & ->).
    destruct (Hall i Hi) as (err' & Hf' & Hn). congruence.
Qed.

(** A call that stays pending or is answered adds no entry. *)
Lemma failures_logged_call soap t :
  failures_logged parse env soap t ->
  attempt_failure parse env soap (calls t) = None ->
  forall i e,
    nth_error (logged (t ++ [ECall soap])) i = Some e
    <-> i < calls (t ++ [ECall soap])
        /\ exists err, attempt_failure parse env soap i = Some err
                       /\ e = warn_entry env (2 * i + 1) (i + 1) err.
Proof.
  intros Hinv Hnone i e. rewrite logged_call, calls_app. cbn [is_call].
  rewrite (failures_logged_char soap t Hinv). split.
  - intros (Hi & H). split; [lia | exact H].
  - intros (Hi & err & Hf & He). split; [|eauto].
    destruct (Nat.eq_dec i (calls t)) as [->|]; [congruence | lia].
Qed.

(** A failed attempt adds its entry. *)
Lemma failures_logged_warn soap t err :
  failures_logged parse env soap t ->
  attempt_failure parse env soap (calls t) = Some err ->
  failures_logged parse env soap
    ((t ++ [ECall soap])
     ++ [warn_entry env (length (t ++ [ECall soap])) (calls t + 1) err]).
Proof.
  intros (Hlen & Hlogs & Hall) Hf. unfold failures_logged.
  rewrite logged_warn, logged_call, !calls_app, !length_app.
  change (is_call (warn_entry env (length t + length [ECall soap])
                     (calls t + 1) err)) with false.
  cbn [is_call length].
  split; [lia|]. split; [lia|].
  intros i Hi.
  destruct (Nat.eq_dec i (calls t)) as [->|Hne].
  - exists err. split; [exact Hf|].
    rewrite nth_error_app2 by lia. rewrite Hlogs, Nat.sub_diag. cbn.
    do 2 f_equal. rewrite Hlen. lia.
  - destruct (Hall i ltac:(lia)) as (err' & Hf' & Hn). exists err'.
    split; [exact Hf'|]. rewrite nth_error_app1 by lia. exact Hn.
Qed.

Lemma failure_none_of_pending soap k :
  callTlo_promise (upstream env k soap) = Pending ->
  attempt_failure parse env soap k = None.
Proof. unfold attempt_failure. now intros ->. Qed.

Lemma failure_none_of_answer soap k x parsed (r : Response num) :
  callTlo_promise (upstream env k soap) = Resolved x ->
  parse (raw x) = inl parsed ->
  classify x parsed = Some r ->
  attempt_failure parse env soap k = None.
Proof. unfold attempt_failure. now intros -> -> ->. Qed.

(** X21: the log entries of a request are exactly the entries of its
    failed attempts, in order: there is an entry at index [i] exactly
    when the call number [i] was made and failed, and that entry, written
    at position [2i + 1] of the trace, carries the attempt number
    [i + 1], the level warn, the message tlo_attempt_failed and the
    message of the error of that attempt. *)
Theorem log_entries_number_the_attempts req i e :
  nth_error (logged (snd (serve cfg parse env req))) i = Some e
  <-> i < calls (snd (serve cfg parse env req))
      /\ exists err,
           attempt_failure parse env (envelope cfg req) i = Some err
           /\ e = warn_entry env (2 * i + 1) (i + 1) err.
Proof.
  destruct (serve_cases cfg parse env req)
    as [H | [H | [[_ H] | (soap & Hsoap & H)]]]; rewrite H; cbn [snd];
    try (split; [destruct i; discriminate | cbn; intros [Hi _]; lia]).
  rewrite (envelope_some cfg req soap Hsoap).
  revert i e.
  assert (Hall : forall fuel attempt t,
             attempt = calls t + 1 ->
             failures_logged parse env soap t ->
             forall i e,
               nth_error (logged (snd (attempts cfg parse env fuel soap attempt t))) i
               = Some e
               <-> i < calls (snd (attempts cfg parse env fuel soap attempt t))
                   /\ exists err,
                        attempt_failure parse env soap i = Some err
                        /\ e = warn_entry env (2 * i + 1) (i + 1) err).
  { apply (attempts_ind cfg parse env
             (fun attempt t o =>
                attempt = calls t + 1 ->
                failures_logged parse env soap t ->
                forall i e,
                  nth_error (logged (snd o)) i = Some e
                  <-> i < calls (snd o)
                      /\ exists err,
                           attempt_failure parse env soap i = Some err
                           /\ e = warn_entry env (2 * i + 1) (i + 1) err));
      cbn [snd].
    - intros attempt t _ Hinv. now apply failures_logged_char.
    - intros attempt t _ _ Hinv. now apply failures_logged_char.
    - intros attempt t _ Hp _ Hinv.
      apply failures_logged_call; [exact Hinv|].
      now apply failure_none_of_pending.
    - intros attempt t x parsed r _ Hp He Hc _ Hinv.
      apply failures_logged_call; [exact Hinv|].
      exact (failure_none_of_answer soap (calls t) x parsed r Hp He Hc).
    - intros attempt t err _ Hf Ha Hinv. subst attempt.
      apply failures_logged_char. now apply failures_logged_warn.
    - intros attempt t err o _ Hf IH Ha Hinv. apply IH.
      + rewrite !calls_app. cbn. lia.
      + rewrite Ha. now apply failures_logged_warn. }
  apply (Hall _ 1 []); [reflexivity|].
  repeat split. intros j Hj. cbn in Hj. lia.
Qed.

End LogEntries.

(* ================================================================== *)
(** * The further properties on sample data *)

Module OnMore.
Import Ref Sample More EscapeSpec.

Lemma escaped_text_has_no_markup_witness :
  forallb (fun c => negb (markup c)) (lit "Ann &amp; &lt;Bob&gt;") = true.
Proof.
  apply (escaped_text_has_no_markup reserved_first). vm_compute; reflexivity.
Defined.

Lemma xmlEscape_injective_witness :
  ToString (JNum (RInt 7)) = ToString (JStr (lit "7") : jsval refnum).
Proof.
  apply xmlEscape_injective. vm_compute; reflexivity.
Defined.

Lemma xmlEscape_identity_iff_plain_witness :
  exists text,
    xmlEscape reserved_first = Some text
    /\ length (lit "Ann & <Bob>") <= length text
    /\ (text = lit "Ann & <Bob>" <-> plain (lit "Ann & <Bob>") = true).
Proof.
  apply (xmlEscape_identity_iff_plain reserved_first). vm_compute; reflexivity.
Defined.

Lemma xmlEscape_twice_witness :
  xmlEscape (JStr (lit "O&apos;Neil") : jsval refnum) = Some (lit "O&apos;Neil")
  <-> plain (lit "O'Neil") = true.
Proof.
  apply (xmlEscape_twice (JStr (lit "O'Neil") : jsval refnum));
    vm_compute; reflexivity.
Defined.

Lemma buildSoap_injective_witness :
  ToString (of_env (TLO_USERNAME cfg) : jsval refnum)
  = ToString (of_env (TLO_USERNAME cfg) : jsval refnum)
  /\ ToString (of_env (TLO_PASSWORD cfg) : jsval refnum)
     = ToString (of_env (TLO_PASSWORD cfg) : jsval refnum)
  /\ ToString (JBool true : jsval refnum) = ToString (JStr (lit "true") : jsval refnum)
  /\ ToString (JStr (lit "O'Neil") : jsval refnum)
     = ToString (JStr (lit "O'Neil") : jsval refnum)
  /\ ToString (JNum (RInt 42)) = ToString (JStr (lit "42") : jsval refnum).
Proof.
  apply (buildSoap_injective cfg cfg (JBool true) (JStr (lit "O'Neil")) (JNum (RInt 42))
           (JStr (lit "true")) (JStr (lit "O'Neil")) (JStr (lit "42"))
           (envelope cfg (request (person (JStr (lit "true")) (JStr (lit "O'Neil"))
                                     (JStr (lit "42"))))));
    vm_compute; reflexivity.
Defined.

Lemma callTlo_settles_once_witness :
  callTlo_promise (exchange_events 200 [found3] ++ [EvError (refused 0); EvEnd])
  = callTlo_promise (exchange_events 200 [found3]).
Proof.
  apply callTlo_settles_once. vm_compute; discriminate.
Defined.

Lemma callTlo_error_rejects_pending_witness :
  callTlo_promise (begun ++ EvError (refused 0) :: [EvEnd]) = Rejected (refused 0).
Proof.
  apply callTlo_error_rejects_pending. vm_compute; reflexivity.
Defined.

Lemma response_status_is_known_witness :
  known_status 200 = true.
Proof.
  apply (response_status_is_known cfg parseString (answering found3) (request ann)
           (success_response
              (JObj [(lit "ErrorCode", JStr (lit "0"));
                     (lit "TransactionId", JStr (lit "tx-1"));
                     (lit "NumberOfRecordsFound", JStr (lit "3"))])
              (RInt 3))).
  vm_compute; reflexivity.
Defined.

Lemma refusing_settles : settles cfg refusing (request ann).
Proof.
  intros k.
  rewrite (attempt_outcome_some cfg refusing (request ann)
             (envelope cfg (request ann)) k) by (vm_compute; reflexivity).
  change (upstream refusing k (envelope cfg (request ann))) with (refusals k).
  discriminate.
Qed.

Lemma refusing_caught k : caught parseString refusing (envelope cfg (request ann)) k.
Proof.
  exists (refused k). apply failure_of_rejected.
  change (upstream refusing k (envelope cfg (request ann))) with (refusals k).
  reflexivity.
Qed.

Lemma settled_calls_are_answered_witness :
  exists r, fst (handle refusing (request ann)) = Responded r.
Proof.
  apply (settled_calls_are_answered cfg parseString refusing (request ann)).
  - repeat split; vm_compute; discriminate.
  - exact refusing_settles.
Defined.

Lemma answers_from_first_parsed_exchange_witness :
  fst (handle recovering (request ann))
  = Responded (success_response (JObj [(lit "ErrorCode", JStr (lit "0"))]) RNaN)
  /\ calls (snd (handle recovering (request ann))) = 2 + 1
  /\ length (logged (snd (handle recovering (request ann)))) = 2.
Proof.
  apply (answers_from_first_parsed_exchange cfg parseString recovering
           (request ann) 2 recovered (parsed_of (raw recovered))).
  - vm_compute; reflexivity.
  - repeat split; vm_compute; reflexivity.
  - cbn. lia.
  - intros [|[|j]] Hj; [exists (refused 0) | exists invalid_xml | lia];
      vm_compute; reflexivity.
  - vm_compute; reflexivity.
  - vm_compute; reflexivity.
  - vm_compute; reflexivity.
Defined.

Lemma exhaustion_is_logged_per_attempt_witness :
  fst (handle refusing (request ann))
  = Responded
      {| status := 504;
         body := JObj [(lit "ok", JBool false);
                       (lit "error", JStr (lit "TLO_TIMEOUT"))] |}
  /\ calls (snd (handle refusing (request ann))) = RETRIES cfg + 1
  /\ length (logged (snd (handle refusing (request ann)))) = RETRIES cfg + 1.
Proof.
  apply (exhaustion_is_logged_per_attempt cfg parseString refusing (request ann)).
  - vm_compute; reflexivity.
  - repeat split; vm_compute; reflexivity.
  - repeat split; vm_compute; discriminate.
  - exact refusing_caught.
Defined.

Lemma upstream_status_is_ignored_witness :
  serve cfg parseString (answering_with 200 found3) (request ann)
  = serve cfg parseString (answering_with 500 found3) (request ann).
Proof.
  apply (upstream_status_is_ignored cfg parseString (answering_with 200 found3)
           (answering_with 500 found3) (request ann)).
  split; intros; reflexivity.
Defined.

Lemma non_object_body_is_invalid_input_witness :
  handle (answering found3) (request (JArr [JStr (lit "Ann")]))
  = (Responded invalid_input_response, []).
Proof.
  apply (non_object_body_is_invalid_input cfg parseString (answering found3)
           (request (JArr [JStr (lit "Ann")]))).
  - vm_compute; reflexivity.
  - reflexivity.
Defined.

Lemma unconvertible_field_is_thrown_witness :
  handle (answering found3) (request unconvertible) = (Thrown, []).
Proof.
  apply (proj1 (unconvertible_field_is_thrown cfg parseString (answering found3)
                  (request unconvertible))).
  split; [vm_compute; reflexivity|].
  split; [repeat split; vm_compute; reflexivity|].
  intros (H & _). vm_compute in H. congruence.
Defined.

(** A page without a result node, on the second attempt. *)
Lemma parse_failure_excerpt_witness :
  exists k x excerpt,
    calls (snd (handle (late_page) (request ann))) = k + 1
    /\ attempt_outcome cfg late_page (request ann) k = Resolved x
    /\ rawStart_of
         (json 502 [(lit "ok", JBool false);
                    (lit "error", JStr (lit "SOAP_PARSE_FAILED"));
                    (lit "rawStart", JStr (firstn 500 long_page))]
          : Response refnum)
       = Some excerpt
    /\ raw x = excerpt ++ skipn 500 (raw x)
    /\ length excerpt = Nat.min 500 (length (raw x))
    /\ (length (raw x) <= 500 -> excerpt = raw x).
Proof.
  apply (parse_failure_excerpt cfg parseString late_page (request ann)
           (json 502 [(lit "ok", JBool false);
                      (lit "error", JStr (lit "SOAP_PARSE_FAILED"));
                      (lit "rawStart", JStr (firstn 500 long_page))])).
  - vm_compute; reflexivity.
  - reflexivity.
Defined.

Lemma log_entries_number_the_attempts_witness :
  nth_error (logged (snd (handle recovering (request ann)))) 1
  = Some (warn_entry recovering 3 2 invalid_xml).
Proof.
  apply (proj2 (log_entries_number_the_attempts cfg parseString recovering
                  (request ann) 1 (warn_entry recovering 3 2 invalid_xml))).
  split; [vm_compute; lia|].
  exists invalid_xml. split; vm_compute; reflexivity.
Defined.

End OnMore.
